(** * Geolocation for clients: a shallow embedding of [clients.py]

    The batch job of [clients.py] reads the clients that have no row in
    the [geolocation] table, builds a postal address for each of them,
    asks a geocoding provider for coordinates and inserts a row when
    none exists yet.

    The embedding follows the source function by function:
    - values decoded by [response.json()] are the inductive [json], with
      objects as finite maps from keys to values;
    - Python exceptions are the inductive [exn]; a call that may raise
      returns a [result];
    - the database connection is an explicit state ([connection]): the
      two tables, the rows written by the open transaction and the list
      of faults the server is going to answer with;
    - the geocoding provider is an oracle from the number of requests
      made so far and the address to what the HTTP call gives back. *)

From Stdlib Require Import ZArith List SpecFloat.
From stdpp Require Import base option list strings gmap pretty.

Set Warnings "-register-all".

#[local] Open Scope Z_scope.
#[local] Open Scope string_scope.
#[local] Open Scope list_scope.

(** ** Values and exceptions *)

(** What [response.json()] can return: [None], booleans, integers,
    floats, strings, lists and dictionaries with string keys. *)
Inductive json :=
| JNull
| JBool (b : bool)
| JInt (n : Z)
| JFloat (f : spec_float)
| JStr (s : string)
| JArr (items : list json)
| JObj (fields : gmap string json).

(** The exceptions of the program.  [RequestException] stands for the
    class of that name of the HTTP library and its subclasses,
    [DatabaseError] for the error class of the database driver; the text
    of [OtherError] is the text of any other exception. *)
Inductive exn :=
| RequestException (text : string)
| DatabaseError
| KeyError (key : json)
| TypeError (subject : json)
| IndexError
| AttributeError (subject : json)
| OtherError (text : string).

(** What a call gives back: a value, or the exception it raises. *)
Inductive result (A : Type) :=
| Ok (a : A)
| Raise (e : exn).
Arguments Ok {A} a.
Arguments Raise {A} e.

(** Truth value of a Python object, as [if v:] tests it. *)
Definition truthy (v : json) : bool :=
  match v with
  | JNull => false
  | JBool b => b
  | JInt n => negb (Z.eqb n 0)
  | JFloat f => match f with S754_zero _ => false | _ => true end
  | JStr s => negb (String.eqb s "")
  | JArr items => match items with [] => false | _ :: _ => true end
  | JObj fields => match map_to_list fields with [] => false | _ :: _ => true end
  end.

(** [v == 'text'] for a string literal. *)
Definition eq_str (v : json) (text : string) : bool :=
  match v with
  | JStr s => String.eqb s text
  | _ => false
  end.

(** [v[key]] for a string key: only a dictionary can be indexed by a
    string, a missing key raises [KeyError]. *)
Definition getitem (v : json) (key : string) : result json :=
  match v with
  | JObj fields =>
      match fields !! key with
      | Some x => Ok x
      | None => Raise (KeyError (JStr key))
      end
  | _ => Raise (TypeError v)
  end.

(** [v[0]]: the first element of a list, the first character of a
    string; a dictionary decoded from JSON has no integer key. *)
Definition getitem0 (v : json) : result json :=
  match v with
  | JArr (x :: _) => Ok x
  | JArr [] => Raise IndexError
  | JStr (String ch _) => Ok (JStr (String ch ""))
  | JStr "" => Raise IndexError
  | JObj _ => Raise (KeyError (JInt 0))
  | _ => Raise (TypeError v)
  end.

(** [v.get(key, default)]: a method of dictionaries only. *)
Definition get_default (v : json) (key : string) (default : json) : result json :=
  match v with
  | JObj fields => Ok (from_option (fun x => x) default (fields !! key))
  | _ => Raise (AttributeError v)
  end.

(** Sequencing: the first exception raised ends the computation. *)
Definition bind {A B} (r : result A) (k : A -> result B) : result B :=
  match r with
  | Ok a => k a
  | Raise e => Raise e
  end.

Notation "x <~ r ;; k" := (bind r (fun x => k))
  (at level 100, r at next level, right associativity).

(** ** Client records and the address builder *)

(** A [pincode] is stored as text or as a number. *)
Inductive scalar :=
| SInt (n : Z)
| SText (s : string).

(** Modelled from the spec: the column types of the [clients] relation.
    The columns are the ones the candidate query selects; the schema
    itself is not part of the source.  A row fetched from the store is
    [dict(zip(columns, row))]: every key is present, and [None] is the
    value of a column that is NULL. *)
Record ClientRecord := {
  id : Z;
  client_name : option string;
  address : option string;
  pincode : option scalar;
  state : option string;
  city : option string
}.

(** [if client.get(field):] for a text column. *)
Definition truthy_text (v : option string) : bool :=
  match v with
  | None => false
  | Some s => negb (String.eqb s "")
  end.

(** [if client.get('pincode'):]. *)
Definition truthy_scalar (v : option scalar) : bool :=
  match v with
  | None => false
  | Some (SInt n) => negb (Z.eqb n 0)
  | Some (SText s) => negb (String.eqb s "")
  end.

(** [str(v)]. *)
Definition str (v : scalar) : string :=
  match v with
  | SInt n => pretty n
  | SText s => s
  end.

(** [sep.join(parts)]. *)
Fixpoint join (sep : string) (parts : list string) : string :=
  match parts with
  | [] => ""
  | [p] => p
  | p :: rest => p +:+ sep +:+ join sep rest
  end.

(** The list [address_parts] of [build_address_string] when it is
    joined, lines 59-70. *)
Definition address_parts (client : ClientRecord) : list string :=
  let address_parts := [] in
  let address_parts :=
    if truthy_text (address client)
    then address_parts ++ [default "" (address client)] else address_parts in
  let address_parts :=
    if truthy_text (city client)
    then address_parts ++ [default "" (city client)] else address_parts in
  let address_parts :=
    if truthy_text (state client)
    then address_parts ++ [default "" (state client)] else address_parts in
  let address_parts :=
    if truthy_scalar (pincode client)
    then address_parts ++ [from_option str "" (pincode client)] else address_parts in
  let address_parts := address_parts ++ ["India"] in
  address_parts.

(** [build_address_string], lines 57-72. *)
Definition build_address_string (client : ClientRecord) : string :=
  join ", " (address_parts client).

(** ** The geocoding client *)

(** What the HTTP exchange of [get_geolocation] gives back:
    [requests.get], [raise_for_status] or [response.json()] raises, or
    the body is decoded to [data]. *)
Inductive http_reply :=
| Raises (e : exn)
| Body (data : json).

(** The text of a result: a value taken from the body, or [str(e)] for
    an exception [e], which is kept symbolic. *)
Inductive text :=
| Value (v : json)
| StrOf (e : exn).

(** The dictionary [get_geolocation] returns has one of two shapes:
    the keys [latitude], [longitude], [formatted_address], [place_id],
    or the keys [error] and [message]. *)
Inductive GeocodeResult :=
| Success (latitude longitude formatted_address place_id : json)
| Failure (error : json) (message : text).

(** The [try] body of [get_geolocation] after the body is decoded,
    lines 88-102. *)
Definition classify (data : json) : result GeocodeResult :=
  status <~ getitem data "status" ;;
  ok <~ (if eq_str status "OK"
         then (results <~ getitem data "results" ;; Ok (truthy results))
         else Ok false) ;;
  if (ok : bool) then
    results <~ getitem data "results" ;;
    first <~ getitem0 results ;;
    geometry <~ getitem first "geometry" ;;
    location <~ getitem geometry "location" ;;
    results <~ getitem data "results" ;;
    first <~ getitem0 results ;;
    formatted_address <~ getitem first "formatted_address" ;;
    lat <~ getitem location "lat" ;;
    lng <~ getitem location "lng" ;;
    results <~ getitem data "results" ;;
    first <~ getitem0 results ;;
    place_id <~ get_default first "place_id" (JStr "") ;;
    Ok (Success lat lng formatted_address place_id)
  else
    error <~ get_default data "status" (JStr "UNKNOWN") ;;
    message <~ get_default data "error_message" (JStr "No results found") ;;
    Ok (Failure error (Value message)).

Definition is_request_exception (e : exn) : bool :=
  match e with
  | RequestException _ => true
  | _ => false
  end.

(** The two [except] clauses of [get_geolocation], lines 104-113. *)
Definition on_exception (e : exn) : GeocodeResult :=
  if is_request_exception e
  then Failure (JStr "API_REQUEST_FAILED") (StrOf e)
  else Failure (JStr "UNEXPECTED_ERROR") (StrOf e).

(** [get_geolocation], lines 75-113, given what the HTTP exchange for
    the address gave back. *)
Definition get_geolocation (reply : http_reply) : GeocodeResult :=
  match reply with
  | Raises e => on_exception e
  | Body data =>
      match classify data with
      | Ok geo_data => geo_data
      | Raise e => on_exception e
      end
  end.

(** ** The store and the connection *)

(** A row of the [geolocation] relation.  [None] is NULL. *)
Record GeolocationRow := {
  geo_id : option Z;
  geo_latitude : json;
  geo_longitude : json;
  geo_type : option string
}.

(** The two relations of the store, each in its natural order. *)
Record database := {
  clients : list ClientRecord;
  geolocation : list GeolocationRow
}.

(** A connection: the committed tables, the rows inserted by the open
    transaction, and one entry per database call still to come ([true]:
    the call raises).  Past the end of the list no call raises. *)
Record connection := {
  store : database;
  pending : list GeolocationRow;
  faults : list bool
}.

(** A computation on the connection that may raise. *)
Definition DB (A : Type) : Type := connection -> result A * connection.

(** [return a]. *)
Definition ret {A} (a : A) : DB A := fun conn => (Ok a, conn).

(** One statement after the other, on the connection the first one
    leaves; an exception of the first skips the second. *)
Definition and_then {A B} (m : DB A) (k : A -> DB B) : DB B :=
  fun conn =>
    match m conn with
    | (Ok a, conn') => k a conn'
    | (Raise e, conn') => (Raise e, conn')
    end.

Notation "x <- m ;; k" := (and_then m (fun x => k))
  (at level 100, m at next level, right associativity).

(** [try: body except Exception: handler]. *)
Definition try_except {A} (body : DB A) (handler : exn -> DB A) : DB A :=
  fun conn =>
    match body conn with
    | (Ok a, conn') => (Ok a, conn')
    | (Raise e, conn') => handler e conn'
    end.

(** Every call to the database consumes one entry of [faults]. *)
Definition server_answers : DB unit :=
  fun conn =>
    match faults conn with
    | [] => (Ok (), conn)
    | fault :: later =>
        let conn' := {| store := store conn; pending := pending conn; faults := later |} in
        if (fault : bool) then (Raise DatabaseError, conn') else (Ok (), conn')
    end.

(** The rows of [geolocation] a statement of this connection sees: the
    committed ones and those of its own open transaction. *)
Definition visible (conn : connection) : list GeolocationRow :=
  geolocation (store conn) ++ pending conn.

(** [psycopg2.connect]: a new session on the store. *)
Definition connect (d : database) (schedule : list bool) : result unit * connection :=
  server_answers {| store := d; pending := []; faults := schedule |}.

(** [conn.commit()]. *)
Definition commit : DB unit :=
  _ <- server_answers ;;
  fun conn =>
    (Ok (),
     {| store := {| clients := clients (store conn); geolocation := visible conn |};
        pending := [];
        faults := faults conn |}).

(** What becomes of the open transaction when it is abandoned. *)
Definition discard (conn : connection) : connection :=
  {| store := store conn; pending := []; faults := faults conn |}.

(** [conn.rollback()]. *)
Definition rollback : DB unit :=
  _ <- server_answers ;;
  fun conn => (Ok (), discard conn).

(** [conn.close()]: the open transaction is abandoned. *)
Definition close (conn : connection) : database := store (discard conn).

(** *** The candidate source *)

(** The first common table expression of the query, [ct]:
    [SELECT * FROM geolocation g WHERE type = 'client']. *)
Definition ct (conn : connection) : list GeolocationRow :=
  filter (fun g => geo_type g = Some "client") (visible conn).

(** The second one, [main]:
    [SELECT c.* FROM ct LEFT JOIN public.clients c ON c.id = ct.id].
    A row of [ct] without a partner gives one row of NULLs ([None]).
    [public.clients] and the [clients] of the outer query are taken to
    be the same relation. *)
Definition main (conn : connection) : list (option ClientRecord) :=
  flat_map
    (fun g =>
       match filter (fun c => Some (id c) = geo_id g) (clients (store conn)) with
       | [] => [None]
       | partners => Some <$> partners
       end)
    (ct conn).

(** [SELECT id FROM main WHERE id IS NOT NULL]. *)
Definition main_ids (conn : connection) : list Z :=
  omap (fun row => id <$> row) (main conn).

(** The rows the whole query selects, in the order of the relation. *)
Definition candidate_rows (conn : connection) : list ClientRecord :=
  filter
    (fun c => is_Some (client_name c) /\ id c ∉ main_ids conn)
    (clients (store conn)).

(** [get_clients_without_geolocation], lines 35-54. *)
Definition get_clients_without_geolocation : DB (list ClientRecord) :=
  _ <- server_answers ;;
  fun conn => (Ok (candidate_rows conn), conn).

(** *** The geolocation writer *)

(** The rows [WHERE id = %s AND type = 'client'] selects. *)
Definition client_rows_of (client_id : Z) (rows : list GeolocationRow)
  : list GeolocationRow :=
  filter (fun g => geo_id g = Some client_id /\ geo_type g = Some "client") rows.

(** [SELECT id FROM geolocation WHERE id = %s AND type = 'client'] and
    [fetchone()]. *)
Definition select_existing (client_id : Z) : DB (option Z) :=
  _ <- server_answers ;;
  fun conn =>
    (Ok (head (omap geo_id (client_rows_of client_id (visible conn)))), conn).

(** The row [(id, latitude, longitude, 'client')]. *)
Definition new_row (client_id : Z) (latitude longitude : json) : GeolocationRow :=
  {| geo_id := Some client_id; geo_latitude := latitude;
     geo_longitude := longitude; geo_type := Some "client" |}.

(** [INSERT INTO geolocation (id, latitude, longitude, type)
     VALUES (%s, %s, %s, 'client')]. *)
Definition insert_geolocation (client_id : Z) (latitude longitude : json) : DB unit :=
  _ <- server_answers ;;
  fun conn =>
    (Ok (),
     {| store := store conn;
        pending := pending conn ++ [new_row client_id latitude longitude];
        faults := faults conn |}).

(** [geo_data['latitude']] and [geo_data['longitude']]. *)
Definition coordinates (geo_data : GeocodeResult) : result (json * json) :=
  match geo_data with
  | Success latitude longitude _ _ => Ok (latitude, longitude)
  | Failure _ _ => Raise (KeyError (JStr "latitude"))
  end.

(** A step that does not touch the connection. *)
Definition lift {A} (r : result A) : DB A := fun conn => (r, conn).

(** The [try] body of [save_geolocation], lines 119-145. *)
Definition check_and_insert (client_id : Z) (geo_data : GeocodeResult) : DB bool :=
  existing <- select_existing client_id ;;
  match existing with
  | Some _ => ret false
  | None =>
      values <- lift (coordinates geo_data) ;;
      _ <- insert_geolocation client_id values.1 values.2 ;;
      _ <- commit ;;
      ret true
  end.

(** [save_geolocation], lines 116-150. *)
Definition save_geolocation (client_id : Z) (geo_data : GeocodeResult) : DB bool :=
  try_except
    (check_and_insert client_id geo_data)
    (fun e => _ <- rollback ;; ret false).

(** ** The batch orchestrator *)

(** One entry of [results]; [status] gives its ['status'] key. *)
Inductive OutcomeRecord :=
| Saved (client_id : Z) (name : option string)
        (latitude longitude formatted_address : json)
| Skipped (client_id : Z) (name : option string) (reason : string)
| Failed (client_id : Z) (name : option string) (error : json) (message : text).

Definition status (o : OutcomeRecord) : string :=
  match o with
  | Saved _ _ _ _ _ => "success"
  | Skipped _ _ _ => "skipped"
  | Failed _ _ _ _ => "failed"
  end.

Definition outcome_id (o : OutcomeRecord) : Z :=
  match o with
  | Saved i _ _ _ _ | Skipped i _ _ | Failed i _ _ _ => i
  end.

(** The local variables of the loop. *)
Record tally := {
  success_count : nat;
  failed_count : nat;
  skipped_count : nat;
  results : list OutcomeRecord
}.

(** What the run acts on besides the store: the addresses sent to the
    provider so far and the number of pauses taken. *)
Record world := {
  conn : connection;
  requests : list string;
  sleeps : nat
}.

(** The provider: what the HTTP exchange gives back for an address,
    which may depend on the number of requests made before. *)
Definition oracle : Type := nat -> string -> http_reply.

(** The call [get_geolocation(address)] of the loop. *)
Definition geocode (provider : oracle) (address : string) (w : world)
  : GeocodeResult * world :=
  (get_geolocation (provider (length (requests w)) address),
   {| conn := conn w; requests := requests w ++ [address]; sleeps := sleeps w |}).

(** The call [save_geolocation(conn, client_id, geo_data)] of the loop. *)
Definition save (client_id : Z) (geo_data : GeocodeResult) (w : world)
  : result bool * world :=
  let (r, c) := save_geolocation client_id geo_data (conn w) in
  (r, {| conn := c; requests := requests w; sleeps := sleeps w |}).

(** [time.sleep(0.2)]. *)
Definition sleep (w : world) : world :=
  {| conn := conn w; requests := requests w; sleeps := S (sleeps w) |}.

(** The body of the loop for one client, lines 198-249. *)
Definition process_client (provider : oracle) (client : ClientRecord)
    (t : tally) (w : world) : result tally * world :=
  let client_id := id client in
  let name := client_name client in
  let address := build_address_string client in
  let (geo_data, w) := geocode provider address w in
  match geo_data with
  | Success latitude longitude formatted_address _ =>
      match save client_id geo_data w with
      | (Ok true, w) =>
          (Ok {| success_count := S (success_count t);
                 failed_count := failed_count t;
                 skipped_count := skipped_count t;
                 results := results t ++
                   [Saved client_id name latitude longitude formatted_address] |},
           w)
      | (Ok false, w) =>
          (Ok {| success_count := success_count t;
                 failed_count := failed_count t;
                 skipped_count := S (skipped_count t);
                 results := results t ++
                   [Skipped client_id name "Already exists in database"] |},
           w)
      | (Raise e, w) => (Raise e, w)
      end
  | Failure error message =>
      (Ok {| success_count := success_count t;
             failed_count := S (failed_count t);
             skipped_count := skipped_count t;
             results := results t ++ [Failed client_id name error message] |},
       w)
  end.

(** [for idx, client in enumerate(clients, 1)], lines 197-253; [total]
    is [len(clients)]. *)
Fixpoint for_each (provider : oracle) (total idx : nat)
    (todo : list ClientRecord) (t : tally) (w : world) : result tally * world :=
  match todo with
  | [] => (Ok t, w)
  | client :: rest =>
      match process_client provider client t w with
      | (Ok t, w) =>
          let w := if (idx <? total)%nat then sleep w else w in
          for_each provider total (S idx) rest t w
      | (Raise e, w) => (Raise e, w)
      end
  end.

(** [all_clients[:limit]]. *)
Definition slice_to {A} (l : list A) (n : Z) : list A :=
  if Z.leb 0 n then take (Z.to_nat n) l
  else take (length l - Z.to_nat (- n))%nat l.

(** "Apply limit", lines 178-184; [None] is the default of the
    parameter. *)
Definition apply_limit (limit : option Z) (all_clients : list ClientRecord)
  : list ClientRecord :=
  match limit with
  | Some n => if negb (Z.eqb n 0) then slice_to all_clients n else all_clients
  | None => all_clients
  end.

(** The summary printed at the end of a run. *)
Record RunSummary := {
  processed : nat;
  saved : nat;
  skipped : nat;
  failed : nat
}.

(** The settings the run checks first. *)
Record config := {
  PG_HOST : option string;
  GOOGLE_API_KEY : option string
}.

(** What an invocation of [process_clients] leaves behind: the value it
    returns ([None] for Python's [None]), the summary if it printed
    one, the store after the connection is closed, the addresses sent to
    the provider and the number of pauses. *)
Record run := {
  returned : option (list OutcomeRecord);
  summary : option RunSummary;
  final : database;
  sent : list string;
  pauses : nat
}.

Definition empty_tally : tally :=
  {| success_count := 0; failed_count := 0; skipped_count := 0; results := [] |}.

(** The [try] block of [process_clients] from the fetch on, lines
    173-265: the value to return and the summary, or an exception. *)
Definition fetch_and_process (provider : oracle) (limit : option Z) (w : world)
  : result (option (list OutcomeRecord) * option RunSummary) * world :=
  match get_clients_without_geolocation (conn w) with
  | (Raise e, c) =>
      (Raise e, {| conn := c; requests := requests w; sleeps := sleeps w |})
  | (Ok all_clients, c) =>
      let w := {| conn := c; requests := requests w; sleeps := sleeps w |} in
      let clients := apply_limit limit all_clients in
      match clients with
      | [] => (Ok (None, None), w)
      | _ :: _ =>
          match for_each provider (length clients) 1 clients empty_tally w with
          | (Ok t, w) =>
              (Ok (Some (results t),
                   Some {| processed := length clients;
                           saved := success_count t;
                           skipped := skipped_count t;
                           failed := failed_count t |}),
               w)
          | (Raise e, w) => (Raise e, w)
          end
      end
  end.

(** [process_clients], lines 153-274. *)
Definition process_clients (cfg : config) (provider : oracle)
    (d : database) (schedule : list bool) (limit : option Z) : run :=
  if negb (truthy_text (PG_HOST cfg) && truthy_text (GOOGLE_API_KEY cfg)) then
    {| returned := None; summary := None; final := d; sent := []; pauses := 0 |}
  else
    match connect d schedule with
    | (Raise _, _) =>
        {| returned := None; summary := None; final := d; sent := []; pauses := 0 |}
    | (Ok _, c) =>
        let (r, w) :=
          fetch_and_process provider limit
            {| conn := c; requests := []; sleeps := 0 |} in
        {| returned := match r with Ok (value, _) => value | Raise _ => None end;
           summary := match r with Ok (_, printed) => printed | Raise _ => None end;
           final := close (conn w);
           sent := requests w;
           pauses := sleeps w |}
    end.

(** ** The fields the address builder keeps *)

(** The three definitions below describe the code, not the
    specification: they list the tokens of the fields that pass the
    truth test of the code.  The specification's own wording is
    [worded_fields], further down; the two differ on a pincode that is
    the number zero. *)

(** The token of a text field that passes [if client.get(field):]: the
    field holds a text other than the empty one. *)
Definition non_empty_text (v : option string) : list string :=
  match v with
  | Some s => if decide (s = "") then [] else [s]
  | None => []
  end.

(** The token of a pincode that passes [if client.get('pincode'):]:
    the field holds a text other than the empty one or a number other
    than zero.  The test is on the value, before [str] is applied, so
    the number zero gives no token although [str(0)] is ["0"]. *)
Definition non_empty_scalar (v : option scalar) : list string :=
  match v with
  | Some (SInt n) => if decide (n = 0) then [] else [pretty n]
  | Some (SText s) => if decide (s = "") then [] else [s]
  | None => []
  end.

(** The tokens of the fields that pass the truth test, in the order
    address, city, state, pincode. *)
Definition non_empty_fields (client : ClientRecord) : list string :=
  non_empty_text (address client) ++ non_empty_text (city client) ++
  non_empty_text (state client) ++ non_empty_scalar (pincode client).

(** A record with the given optional fields. *)
Definition with_fields (client : ClientRecord)
    (a c s : option string) (p : option scalar) : ClientRecord :=
  {| id := id client; client_name := client_name client;
     address := a; pincode := p; state := s; city := c |}.

(** ** The specification's wording of the address builder *)

(** The pincode as a string, when that string is not empty. *)
Definition worded_pincode (v : option scalar) : list string :=
  match v with
  | Some p => if decide (str p = "") then [] else [str p]
  | None => []
  end.

(** "The non-empty fields among address, city, state,
    pincode-as-string, in that order": a text field is non-empty when
    it holds a text other than the empty one, the pincode when its
    string is not empty. *)
Definition worded_fields (client : ClientRecord) : list string :=
  non_empty_text (address client) ++ non_empty_text (city client) ++
  non_empty_text (state client) ++ worded_pincode (pincode client).

(** ** The specification's wording of the candidate source *)

(** "The ids of geolocation rows with type 'client'". *)
Definition ids_typed_client (conn : connection) : list (option Z) :=
  geo_id <$> filter (fun g => geo_type g = Some "client") (visible conn).

(** ** The invariant of the geolocation relation *)

(** At most one row per pair of an id and the type ['client']. *)
Definition at_most_one_row (rows : list GeolocationRow) : Prop :=
  forall client_id, (length (client_rows_of client_id rows) <= 1)%nat.

(** A connection whose server answers every call still to come. *)
Definition reliable (conn : connection) : Prop :=
  forall fault, fault ∈ faults conn -> fault = false.

(** ** Sample data *)

Definition asha : ClientRecord :=
  {| id := 1; client_name := Some "Asha Traders";
     address := Some "12 MG Road"; pincode := Some (SInt 560001);
     state := Some "Karnataka"; city := Some "Bengaluru" |}.

Definition bharat : ClientRecord :=
  {| id := 2; client_name := Some "Bharat Stores";
     address := None; pincode := None; state := None; city := Some "Pune" |}.

Definition chitra : ClientRecord :=
  {| id := 3; client_name := Some "Chitra Mills";
     address := None; pincode := None; state := None; city := None |}.

Definition unnamed : ClientRecord :=
  {| id := 5; client_name := None;
     address := Some "1 Park Street"; pincode := Some (SText "700016");
     state := None; city := Some "Kolkata" |}.

(** Every field is present, and the pincode is the number zero. *)
Definition zero_pincode : ClientRecord :=
  {| id := 6; client_name := Some "Zero Pin Co";
     address := Some "12 MG Road"; pincode := Some (SInt 0);
     state := Some "Karnataka"; city := Some "Bengaluru" |}.


(** Every optional field holds a value, and each value is falsy. *)
Definition hollow : ClientRecord :=
  {| id := 4; client_name := Some "Hollow Ltd";
     address := Some ""; pincode := Some (SInt 0);
     state := Some ""; city := Some "" |}.

Definition ok_body (lat lng : Z) (formatted : string) : json :=
  JObj (<["status" := JStr "OK"]>
        {["results" :=
            JArr [JObj (<["geometry" :=
                            JObj {["location" :=
                                     JObj (<["lat" := JInt lat]> {["lng" := JInt lng]})]}]>
                        {["formatted_address" := JStr formatted]})]]}).

Definition zero_results_fields : gmap string json :=
  <["status" := JStr "ZERO_RESULTS"]> {["results" := JArr []]}.

Definition zero_results_body : json := JObj zero_results_fields.

Definition no_status_body : json := JObj {["results" := JArr []]}.

(** A provider that knows every address but the bare country name. *)
Definition sample_provider : oracle :=
  fun _ address_text =>
    if String.eqb address_text "India" then Body zero_results_body
    else Body (ok_body 12 77 address_text).

Definition sample_config : config :=
  {| PG_HOST := Some "db.example"; GOOGLE_API_KEY := Some "key" |}.

Definition client_row (i : Z) : GeolocationRow :=
  {| geo_id := Some i; geo_latitude := JInt 18; geo_longitude := JInt 73;
     geo_type := Some "client" |}.

Definition vendor_row (i : Z) : GeolocationRow :=
  {| geo_id := Some i; geo_latitude := JInt 18; geo_longitude := JInt 73;
     geo_type := Some "vendor" |}.

Definition empty_store : database := {| clients := []; geolocation := [] |}.

Definition one_client_store : database :=
  {| clients := [asha]; geolocation := [] |}.

Definition three_client_store : database :=
  {| clients := [asha; bharat; chitra]; geolocation := [] |}.

(** Bharat has a row already; Asha has one of another type only. *)
Definition mixed_store : database :=
  {| clients := [asha; bharat; chitra; unnamed];
     geolocation :=
       [client_row 2; vendor_row 1;
        {| geo_id := None; geo_latitude := JNull; geo_longitude := JNull;
           geo_type := Some "client" |}] |}.


(** Bharat has a row already, the two others have none. *)
Definition bharat_known_store : database :=
  {| clients := [asha; bharat; chitra]; geolocation := [client_row 2] |}.

Definition session (d : database) (schedule : list bool) : connection :=
  {| store := d; pending := []; faults := schedule |}.

Definition fresh_world (d : database) (schedule : list bool) : world :=
  {| conn := session d schedule; requests := []; sleeps := 0 |}.

(** The server answers the connection, the query and the check, and
    fails the insert. *)
Definition insert_fails : list bool := [false; false; false; true].

(** The server answers the connection, the query, the check and the
    insert, and fails the commit. *)
Definition commit_fails : list bool := [false; false; false; false; true].

Definition sample_geo : GeocodeResult :=
  Success (JInt 12) (JInt 77) (JStr "12 MG Road, Bengaluru") (JStr "").

(** ** Reading a run *)

(** The rows the records of status ["success"] stand for. *)
Definition saved_rows (outcomes : list OutcomeRecord) : list GeolocationRow :=
  flat_map
    (fun o =>
       match o with
       | Saved i _ latitude longitude _ => [new_row i latitude longitude]
       | _ => []
       end)
    outcomes.

(** The ids of the records of status ["success"]. *)
Definition saved_ids (outcomes : list OutcomeRecord) : list Z :=
  omap (fun o => match o with Saved i _ _ _ _ => Some i | _ => None end) outcomes.

(** The number of records with the given ['status']. *)
Definition count_status (s : string) (outcomes : list OutcomeRecord) : nat :=
  length (filter (fun o => status o = s) outcomes).

(** The ['client_name'] key of a record. *)
Definition outcome_name (o : OutcomeRecord) : option string :=
  match o with
  | Saved _ n _ _ _ | Skipped _ n _ | Failed _ n _ _ => n
  end.

(** The connection once another session has committed the row [g]. *)
Definition with_committed_row (g : GeolocationRow) (conn : connection) : connection :=
  {| store := {| clients := clients (store conn);
                 geolocation := geolocation (store conn) ++ [g] |};
     pending := pending conn;
     faults := faults conn |}.

(** A provider that is down: every request fails in transport. *)
Definition provider_down : oracle :=
  fun _ _ => Raises (RequestException "connection refused").

(** The records of a run over the three sample clients, none of whom
    has a row: the first two are saved, the last has no address the
    provider knows. *)
Definition three_client_outcomes : list OutcomeRecord :=
  [Saved 1 (Some "Asha Traders") (JInt 12) (JInt 77)
     (JStr "12 MG Road, Bengaluru, Karnataka, 560001, India");
   Saved 2 (Some "Bharat Stores") (JInt 12) (JInt 77) (JStr "Pune, India");
   Failed 3 (Some "Chitra Mills") (JStr "ZERO_RESULTS")
     (Value (JStr "No results found"))].

(** A body with two results. *)
Definition two_results_body : json :=
  JObj (<["status" := JStr "OK"]>
        {["results" :=
            JArr [JObj (<["geometry" :=
                            JObj {["location" :=
                                     JObj (<["lat" := JInt 12]> {["lng" := JInt 77]})]}]>
                        (<["place_id" := JStr "first"]>
                         {["formatted_address" := JStr "Bengaluru"]}));
                  JObj {["formatted_address" := JStr "elsewhere"]}]]}).

(** * Properties *)

(** ** The address builder *)

Section AddressBuilder.

Lemma truthy_text_non_empty (v : option string) :
  (if truthy_text v then [default "" v] else []) = non_empty_text v.
Proof.
  destruct v as [s|]; simpl; [|done].
  destruct (String.eqb_spec s ""); case_decide; simpl; congruence.
Qed.

Lemma truthy_scalar_non_empty (v : option scalar) :
  (if truthy_scalar v then [from_option str "" v] else []) = non_empty_scalar v.
Proof.
  destruct v as [[n|s]|]; simpl; [| |done].
  - destruct (Z.eqb_spec n 0); case_decide; simpl; congruence.
  - destruct (String.eqb_spec s ""); case_decide; simpl; congruence.
Qed.

(** The list that is joined, read off the four tests. *)
Lemma address_parts_unfold (client : ClientRecord) :
  address_parts client =
    (if truthy_text (address client) then [default "" (address client)] else []) ++
    (if truthy_text (city client) then [default "" (city client)] else []) ++
    (if truthy_text (state client) then [default "" (state client)] else []) ++
    (if truthy_scalar (pincode client) then [from_option str "" (pincode client)] else []) ++
    ["India"].
Proof.
  unfold address_parts.
  destruct (truthy_text (address client)), (truthy_text (city client)),
    (truthy_text (state client)), (truthy_scalar (pincode client)); reflexivity.
Qed.

Lemma address_parts_fields (client : ClientRecord) :
  address_parts client = non_empty_fields client ++ ["India"].
Proof.
  rewrite address_parts_unfold, !truthy_text_non_empty, truthy_scalar_non_empty.
  unfold non_empty_fields. by rewrite <- !app_assoc.
Qed.

Lemma truthy_text_true (s : string) : s ≠ "" → truthy_text (Some s) = true.
Proof. intros Hs. simpl. by destruct (String.eqb_spec s ""). Qed.

End AddressBuilder.

(** The decimal string of a number is never empty. *)
Lemma pretty_N_go_non_empty (x : N) (s : string) : s ≠ "" → pretty_N_go x s ≠ "".
Proof.
  revert s. induction (N.lt_wf_0 x) as [x _ IH]; intros s Hs.
  assert (x = 0 ∨ 0 < x)%N as [->|Hpos] by lia.
  - by rewrite pretty_N_go_0.
  - rewrite pretty_N_go_step by done. apply IH; [by apply N.div_lt|done].
Qed.

Lemma pretty_Z_non_empty (n : Z) : pretty n ≠ "".
Proof.
  assert (∀ x : positive, pretty x ≠ "") as Hpos.
  { intros x. unfold pretty, pretty_positive, pretty, pretty_N.
    case_decide; [done|]. rewrite pretty_N_go_step by lia.
    by apply pretty_N_go_non_empty. }
  destruct n as [|x|x]; [done|apply Hpos|done].
Qed.

(** Unless the pincode is the number zero, the specification's wording
    and the truth test of the code select the same tokens. *)
Lemma worded_fields_non_empty_fields (client : ClientRecord) :
  pincode client ≠ Some (SInt 0) → worded_fields client = non_empty_fields client.
Proof.
  intros Hp. unfold worded_fields, non_empty_fields. do 3 f_equal.
  destruct (pincode client) as [[n|s]|]; simpl; [|done..].
  rewrite decide_False by apply pretty_Z_non_empty.
  rewrite decide_False; [done|]. by intros ->.
Qed.

(** C9, as the code has it.  For every client record whose pincode is
    not the number zero, [build_address_string] is the join with [", "]
    of the non-empty fields among address, city, state and
    pincode-as-string, in that order, followed by ["India"]; a pincode
    that is the number zero is left out, as if the field were absent.
    With all four fields non-empty (and the pincode not the number zero)
    the result is ["address, city, state, pincode, India"], with only
    the city present it is ["city, India"], with no field present it is
    ["India"]. *)
Theorem build_address_string_spec
    (client : ClientRecord) (a c s : string) (p : scalar) :
  a ≠ "" → c ≠ "" → s ≠ "" → str p ≠ "" → p ≠ SInt 0 →
  (pincode client ≠ Some (SInt 0) →
     build_address_string client = join ", " (worded_fields client ++ ["India"]))
  ∧ (pincode client = Some (SInt 0) →
     build_address_string client
     = join ", "
         (worded_fields
            (with_fields client (address client) (city client) (state client) None)
          ++ ["India"]))
  ∧ build_address_string (with_fields client (Some a) (Some c) (Some s) (Some p))
    = a +:+ ", " +:+ c +:+ ", " +:+ s +:+ ", " +:+ str p +:+ ", India"
  ∧ build_address_string (with_fields client None (Some c) None None)
    = c +:+ ", India"
  ∧ build_address_string (with_fields client None None None None) = "India".
Proof.
  intros Ha Hc Hs Hstr Hzero.
  assert (truthy_scalar (Some p) = true) as Hp.
  { destruct p as [n|t]; simpl in *.
    - destruct (Z.eqb_spec n 0) as [->|]; [done|done].
    - by destruct (String.eqb_spec t ""). }
  split; [|split; [|split; [|split]]].
  - intros Hpin. unfold build_address_string.
    by rewrite address_parts_fields, worded_fields_non_empty_fields.
  - intros Hpin. unfold build_address_string.
    rewrite worded_fields_non_empty_fields by done.
    rewrite address_parts_fields. unfold non_empty_fields.
    cbn [with_fields address city state pincode]. by rewrite Hpin.
  - unfold build_address_string. rewrite address_parts_unfold.
    cbn [with_fields address city state pincode].
    rewrite !truthy_text_true, Hp by done. reflexivity.
  - unfold build_address_string. rewrite address_parts_unfold.
    cbn [with_fields address city state pincode].
    rewrite truthy_text_true by done. reflexivity.
  - reflexivity.
Qed.

Lemma build_address_string_spec_witness :
  build_address_string asha = "12 MG Road, Bengaluru, Karnataka, 560001, India"
  ∧ build_address_string bharat = "Pune, India"
  ∧ build_address_string chitra = "India"
  ∧ build_address_string asha = join ", " (worded_fields asha ++ ["India"])
  ∧ build_address_string zero_pincode = "12 MG Road, Bengaluru, Karnataka, India".
Proof.
  destruct (build_address_string_spec asha "12 MG Road" "Bengaluru" "Karnataka"
              (SInt 560001)) as (Hworded & _ & Hall & _); [done..|].
  destruct (build_address_string_spec bharat "x" "Pune" "x" (SInt 1))
    as (_ & _ & _ & Hcity & _); [done..|].
  destruct (build_address_string_spec chitra "x" "x" "x" (SInt 1))
    as (_ & _ & _ & _ & Hnone); [done..|].
  destruct (build_address_string_spec zero_pincode "x" "x" "x" (SInt 1))
    as (_ & Hzero & _); [done..|].
  split; [exact Hall|]. split; [exact Hcity|]. split; [exact Hnone|].
  split; [apply Hworded; discriminate|].
  rewrite Hzero; reflexivity.
Defined.

(** C9 as stated does not hold: with all four fields present and the
    pincode the number zero, the pincode as a string is ["0"], which is
    not empty, and the code leaves it out. *)
Lemma zero_pincode_is_left_out :
  pincode zero_pincode = Some (SInt 0)
  ∧ str (SInt 0) = "0"
  ∧ join ", " (worded_fields zero_pincode ++ ["India"])
    = "12 MG Road, Bengaluru, Karnataka, 0, India"
  ∧ build_address_string zero_pincode = "12 MG Road, Bengaluru, Karnataka, India"
  ∧ build_address_string zero_pincode
    ≠ join ", " (worded_fields zero_pincode ++ ["India"]).
Proof. repeat split. discriminate. Qed.

(** C10.  A field that holds a falsy value (an empty text, the number
    zero) is left out exactly as if the field were absent: for the
    pincode and likewise for address, city and state, the list of
    tokens and the address string are those of the record without the
    field. *)
Theorem falsy_field_is_skipped (client : ClientRecord) :
  (truthy_scalar (pincode client) = false →
     address_parts client =
       address_parts (with_fields client (address client) (city client) (state client) None)
     ∧ build_address_string client =
       build_address_string
         (with_fields client (address client) (city client) (state client) None))
  ∧ (truthy_text (address client) = false →
     address_parts client =
       address_parts (with_fields client None (city client) (state client) (pincode client))
     ∧ build_address_string client =
       build_address_string
         (with_fields client None (city client) (state client) (pincode client)))
  ∧ (truthy_text (city client) = false →
     address_parts client =
       address_parts (with_fields client (address client) None (state client) (pincode client))
     ∧ build_address_string client =
       build_address_string
         (with_fields client (address client) None (state client) (pincode client)))
  ∧ (truthy_text (state client) = false →
     address_parts client =
       address_parts (with_fields client (address client) (city client) None (pincode client))
     ∧ build_address_string client =
       build_address_string
         (with_fields client (address client) (city client) None (pincode client))).
Proof.
  unfold build_address_string.
  repeat split; rewrite ?address_parts_unfold;
    cbn [with_fields address city state pincode truthy_text truthy_scalar];
    rewrite ?H; reflexivity.
Qed.

Lemma falsy_field_is_skipped_witness :
  pincode hollow = Some (SInt 0) ∧ address hollow = Some ""
  ∧ address_parts hollow = ["India"]
  ∧ build_address_string hollow =
    build_address_string (with_fields hollow (Some "") (Some "") (Some "") None)
  ∧ build_address_string hollow =
    build_address_string (with_fields hollow None (Some "") (Some "") (Some (SInt 0)))
  ∧ build_address_string hollow =
    build_address_string (with_fields hollow (Some "") None (Some "") (Some (SInt 0)))
  ∧ build_address_string hollow =
    build_address_string (with_fields hollow (Some "") (Some "") None (Some (SInt 0))).
Proof.
  destruct (falsy_field_is_skipped hollow) as (Hp & Ha & Hc & Hs).
  destruct Hp as [_ Hp]; [reflexivity|].
  destruct Ha as [_ Ha]; [reflexivity|].
  destruct Hc as [_ Hc]; [reflexivity|].
  destruct Hs as [_ Hs]; [reflexivity|].
  exact (conj eq_refl (conj eq_refl (conj eq_refl (conj Hp (conj Ha (conj Hc Hs)))))).
Defined.

(** ** The geocoding client *)

(** Unfold the client down to the dictionary lookups. *)
Ltac geo_step :=
  cbn [bind getitem getitem0 get_default truthy from_option default].
Ltac geo_unfold := unfold get_geolocation, classify; geo_step.

Section GeocodingClient.

Variable fields : gmap string json.

(** A body without a [status] key: the subscript on line 88 raises
    before the default of line 100 can apply. *)
Lemma get_geolocation_no_status :
  fields !! "status" = None →
  get_geolocation (Body (JObj fields))
  = Failure (JStr "UNEXPECTED_ERROR") (StrOf (KeyError (JStr "status"))).
Proof. intros Hs. geo_unfold. by rewrite Hs. Qed.

(** A status other than ["OK"]: the result list is not looked at. *)
Lemma get_geolocation_not_ok (status : json) :
  fields !! "status" = Some status →
  eq_str status "OK" = false →
  get_geolocation (Body (JObj fields))
  = Failure status
      (Value (default (JStr "No results found") (fields !! "error_message"))).
Proof.
  intros Hs Hne. geo_unfold. rewrite Hs. geo_step. by rewrite Hne.
Qed.

(** Status ["OK"] and a result list that is empty. *)
Lemma get_geolocation_no_results (status results : json) :
  fields !! "status" = Some status →
  eq_str status "OK" = true →
  fields !! "results" = Some results →
  truthy results = false →
  get_geolocation (Body (JObj fields))
  = Failure status
      (Value (default (JStr "No results found") (fields !! "error_message"))).
Proof.
  intros Hs Hok Hr Hempty. geo_unfold. rewrite Hs. geo_step.
  rewrite Hok, Hr. geo_step. by rewrite Hempty.
Qed.

(** Status ["OK"] and a first result of the expected shape. *)
Lemma get_geolocation_first_result
    (status first lat lng formatted : json) (others : list json)
    (result geometry location : gmap string json) :
  fields !! "status" = Some status →
  eq_str status "OK" = true →
  fields !! "results" = Some (JArr (first :: others)) →
  first = JObj result →
  result !! "geometry" = Some (JObj geometry) →
  geometry !! "location" = Some (JObj location) →
  location !! "lat" = Some lat →
  location !! "lng" = Some lng →
  result !! "formatted_address" = Some formatted →
  get_geolocation (Body (JObj fields))
  = Success lat lng formatted (default (JStr "") (result !! "place_id")).
Proof.
  intros Hs Hok Hr -> Hg Hl Hlat Hlng Hf. geo_unfold. rewrite Hs. geo_step.
  rewrite Hok, Hr. geo_step. rewrite Hg. geo_step. rewrite Hl. geo_step.
  rewrite Hf. geo_step. rewrite Hlat. geo_step. by rewrite Hlng.
Qed.

End GeocodingClient.

(** Success is returned only for a body whose status is ["OK"] and
    whose result list is not empty. *)
Lemma get_geolocation_success_only (reply : http_reply) (lat lng formatted place : json) :
  get_geolocation reply = Success lat lng formatted place →
  ∃ fields results,
    reply = Body (JObj fields) ∧ fields !! "status" = Some (JStr "OK")
    ∧ fields !! "results" = Some results ∧ truthy results = true.
Proof.
  destruct reply as [e|data]; simpl.
  { unfold on_exception. by destruct (is_request_exception e). }
  destruct (classify data) as [geo|e] eqn:Hc.
  2:{ unfold on_exception. by destruct (is_request_exception e). }
  intros ->. unfold classify in Hc.
  destruct data as [| | | | |?|fields]; try discriminate Hc.
  cbn [bind getitem] in Hc.
  destruct (fields !! "status") as [status|] eqn:Hs; [|discriminate Hc].
  cbn [bind] in Hc. destruct (eq_str status "OK") eqn:Hok.
  - destruct status as [| | | |s| |]; try discriminate Hok.
    simpl in Hok. apply String.eqb_eq in Hok as ->.
    destruct (fields !! "results") as [results|] eqn:Hr; [|discriminate Hc].
    cbn [bind] in Hc. destruct (truthy results) eqn:Ht.
    + by exists fields, results.
    + discriminate Hc.
  - discriminate Hc.
Qed.

(** C5, at the body [{"results": []}]: the status is missing and the
    result list is empty.  The default ["UNKNOWN"] of line 100 is not
    what comes back: [data['status']] on line 88 raises [KeyError]
    first, and the result is the failure [UNEXPECTED_ERROR] of the last
    [except] clause. *)
Theorem get_geolocation_missing_status :
  get_geolocation (Body no_status_body)
  = Failure (JStr "UNEXPECTED_ERROR") (StrOf (KeyError (JStr "status")))
  ∧ get_geolocation (Body no_status_body)
    ≠ Failure (JStr "UNKNOWN") (Value (JStr "No results found")).
Proof. split; [reflexivity|discriminate]. Qed.

(** The status ["ZERO_RESULTS"] gives the failure of that code. *)
Lemma get_geolocation_zero_results :
  get_geolocation (Body zero_results_body)
  = Failure (JStr "ZERO_RESULTS") (Value (JStr "No results found")).
Proof. reflexivity. Qed.

(** ** The candidate source *)

(** For a row of [clients], the [NOT IN] test of the query is the
    exclusion the specification words. *)
Lemma elem_of_main_ids (conn : connection) (c : ClientRecord) :
  c ∈ clients (store conn) →
  id c ∈ main_ids conn ↔ Some (id c) ∈ ids_typed_client conn.
Proof.
  intros Hc. unfold main_ids, main, ids_typed_client.
  rewrite list_elem_of_omap, list_elem_of_fmap. split.
  - intros (row & Hrow & Hid).
    apply list_elem_of_In, in_flat_map in Hrow as (g & Hg%list_elem_of_In & Hin).
    exists g. split; [|done].
    destruct row as [c'|]; [|discriminate Hid]. simpl in Hid.
    injection Hid as Hid. rewrite <- Hid.
    destruct (filter _ (clients (store conn))) as [|p ps] eqn:Hf.
    { destruct Hin as [?|[]]; discriminate. }
    apply list_elem_of_In in Hin.
    apply list_elem_of_fmap in Hin as (c'' & [= <-] & Hc'').
    rewrite <- Hf in Hc''. by apply list_elem_of_filter in Hc'' as [? _].
  - intros (g & Hid & Hg). exists (Some c). split; [|done].
    apply list_elem_of_In, in_flat_map. exists g.
    split; [by apply list_elem_of_In|].
    assert (c ∈ filter (λ c0, Some (id c0) = geo_id g) (clients (store conn))) as Hin
      by by apply list_elem_of_filter.
    destruct (filter _ (clients (store conn))) as [|p ps]; [by apply elem_of_nil in Hin|].
    apply list_elem_of_In. by apply list_elem_of_fmap_2.
Qed.

Lemma filter_ext_elem {A} (P Q : A → Prop)
    `{!∀ x, Decision (P x), !∀ x, Decision (Q x)} (l : list A) :
  (∀ x, x ∈ l → P x ↔ Q x) → filter P l = filter Q l.
Proof.
  induction l as [|a l IH]; intros HPQ; [done|].
  rewrite !filter_cons, IH by (intros x Hx; apply HPQ; by right).
  destruct (decide (P a)) as [HP|HP], (decide (Q a)) as [HQ|HQ]; try done.
  - destruct HQ. apply HPQ; [by left|done].
  - destruct HP. apply HPQ; [by left|done].
Qed.

Lemma server_answers_inv (conn conn' : connection) (r : result unit) :
  server_answers conn = (r, conn') →
  store conn' = store conn ∧ pending conn' = pending conn
  ∧ (r = Ok () ∧ (faults conn = [] ∧ conn' = conn ∨ faults conn = false :: faults conn')
     ∨ r = Raise DatabaseError ∧ faults conn = true :: faults conn').
Proof.
  unfold server_answers. destruct conn as [d p fs]; simpl.
  destruct fs as [|[] later]; intros [= <- <-]; simpl; naive_solver.
Qed.

Lemma visible_server_answers (conn conn' : connection) (r : result unit) :
  server_answers conn = (r, conn') → visible conn' = visible conn.
Proof.
  intros (Hs & Hp & _)%server_answers_inv. unfold visible. by rewrite Hs, Hp.
Qed.

Lemma candidate_rows_server_answers (conn conn' : connection) (r : result unit) :
  server_answers conn = (r, conn') → candidate_rows conn' = candidate_rows conn.
Proof.
  intros H. pose proof (visible_server_answers _ _ _ H) as Hv.
  apply server_answers_inv in H as (Hs & _).
  unfold candidate_rows, main_ids, main, ct. by rewrite Hv, Hs.
Qed.

(** The rows the query selects, in the specification's words. *)
Lemma candidate_rows_spec (conn : connection) :
  candidate_rows conn
  = filter (λ c, is_Some (client_name c) ∧ Some (id c) ∉ ids_typed_client conn)
      (clients (store conn)).
Proof.
  unfold candidate_rows. apply filter_ext_elem.
  intros c Hc. by rewrite elem_of_main_ids.
Qed.

(** What the call returns when it returns. *)
Lemma candidate_source_returned (conn conn' : connection) (rows : list ClientRecord) :
  get_clients_without_geolocation conn = (Ok rows, conn') →
  rows = candidate_rows conn ∧ store conn' = store conn ∧ pending conn' = pending conn.
Proof.
  unfold get_clients_without_geolocation, and_then.
  destruct (server_answers conn) as [[[]|e] c1] eqn:Hs; [|discriminate].
  intros [= <- <-]. rewrite (candidate_rows_server_answers _ _ _ Hs).
  by apply server_answers_inv in Hs as (? & ? & _).
Qed.

(** C7.  For every state of the store, [get_clients_without_geolocation]
    returns, unless the server answers the query with an error, exactly
    the rows of [clients], in their order, whose [client_name] is not
    NULL and whose [id] is not among the ids of the geolocation rows of
    type ['client']; no returned client has a geolocation row of type
    ['client'], and the store is left as it was. *)
Theorem candidate_source_exact (conn : connection) :
  head (faults conn) ≠ Some true →
  ∃ rows conn',
    get_clients_without_geolocation conn = (Ok rows, conn')
    ∧ store conn' = store conn
    ∧ rows = filter (λ c, is_Some (client_name c)
                          ∧ Some (id c) ∉ ids_typed_client conn)
               (clients (store conn))
    ∧ (∀ c, c ∈ rows ↔
         c ∈ clients (store conn) ∧ is_Some (client_name c)
         ∧ Some (id c) ∉ ids_typed_client conn)
    ∧ (∀ c g, c ∈ rows → g ∈ visible conn → geo_type g = Some "client" →
         geo_id g ≠ Some (id c)).
Proof.
  intros Hf.
  assert (∃ conn', get_clients_without_geolocation conn = (Ok (candidate_rows conn), conn'))
    as [conn' Hrun].
  { unfold get_clients_without_geolocation, and_then, server_answers.
    destruct conn as [d p [|[] later]]; simpl in *; [eauto|done|eauto]. }
  exists (candidate_rows conn), conn'. split; [done|].
  split; [by apply candidate_source_returned in Hrun as (_ & ? & _)|].
  rewrite candidate_rows_spec. split; [done|]. split.
  - intros c. rewrite list_elem_of_filter. tauto.
  - intros c g [[_ Hnot] _]%list_elem_of_filter Hg Ht Hid. apply Hnot.
    unfold ids_typed_client. apply list_elem_of_fmap. exists g.
    split; [done|]. by apply list_elem_of_filter.
Qed.

Lemma candidate_source_exact_witness :
  head (faults (session mixed_store [])) ≠ Some true
  ∧ ∃ conn',
      get_clients_without_geolocation (session mixed_store [])
      = (Ok [asha; chitra], conn').
Proof.
  assert (head (faults (session mixed_store [])) ≠ Some true) as Hf by discriminate.
  split; [exact Hf|].
  destruct (candidate_source_exact (session mixed_store []) Hf)
    as (rows & conn' & Hrun & _ & Hrows & _).
  exists conn'. rewrite Hrun. f_equal. f_equal. rewrite Hrows. reflexivity.
Defined.

(** ** The geolocation writer *)

Section Writer.

Variable client_id : Z.

(** [fetchone()] gives a row exactly when a row of the client exists. *)
Lemma existing_None (rows : list GeolocationRow) :
  head (omap geo_id (client_rows_of client_id rows)) = None
  ↔ client_rows_of client_id rows = [].
Proof.
  unfold client_rows_of.
  destruct (filter _ rows) as [|g gs] eqn:Hf; [done|].
  assert (g ∈ filter (λ g, geo_id g = Some client_id ∧ geo_type g = Some "client") rows)
    as [[Hid _] _]%list_elem_of_filter by (rewrite Hf; left).
  simpl. by rewrite Hid.
Qed.

Lemma server_answers_reliable (conn : connection) :
  reliable conn →
  ∃ conn', server_answers conn = (Ok (), conn')
           ∧ store conn' = store conn ∧ pending conn' = pending conn
           ∧ reliable conn'.
Proof.
  unfold reliable, server_answers. destruct conn as [d p [|fault later]]; simpl.
  - intros H. by eexists.
  - intros H. rewrite (H fault) by left.
    eexists. repeat split. simpl. intros b Hb. apply H. by right.
Qed.

(** What the [try] body does, whatever the server answers: it writes
    nothing, or it inserts the row of a client that had none and then
    fails to commit, or it inserts that row and commits. *)
Lemma check_and_insert_cases (geo_data : GeocodeResult)
    (conn conn' : connection) (r : result bool) :
  check_and_insert client_id geo_data conn = (r, conn') →
  (store conn' = store conn ∧ pending conn' = pending conn ∧ r ≠ Ok true
   ∧ (r = Ok false → client_rows_of client_id (visible conn) ≠ []))
  ∨ (client_rows_of client_id (visible conn) = []
     ∧ ∃ lat lng, coordinates geo_data = Ok (lat, lng)
       ∧ (r = Raise DatabaseError ∧ store conn' = store conn
          ∧ pending conn' = pending conn ++ [new_row client_id lat lng]
          ∨ r = Ok true ∧ pending conn' = []
            ∧ store conn' =
              {| clients := clients (store conn);
                 geolocation := visible conn ++ [new_row client_id lat lng] |})).
Proof.
  unfold check_and_insert, select_existing, and_then.
  destruct (server_answers conn) as [[[]|e] c1] eqn:H1.
  2:{ apply server_answers_inv in H1 as (? & ? & [[? _]|[[= ->] _]]); [done|].
      intros [= <- <-]. left. by repeat split. }
  pose proof (visible_server_answers _ _ _ H1) as Hv1.
  apply server_answers_inv in H1 as (Hs1 & Hp1 & _). rewrite Hv1.
  destruct (head _) as [found|] eqn:Hex.
  { intros [= <- <-]. left. repeat split; try done.
    intros _ Hnone%existing_None. by rewrite Hnone in Hex. }
  apply existing_None in Hex.
  unfold lift. destruct (coordinates geo_data) as [[lat lng]|e] eqn:Hgeo.
  2:{ intros [= <- <-]. left. by repeat split. }
  unfold insert_geolocation, and_then.
  destruct (server_answers c1) as [[[]|e] c2] eqn:H2.
  2:{ apply server_answers_inv in H2 as (? & ? & [[? _]|[[= ->] _]]); [done|].
      intros [= <- <-]. left. repeat split; try congruence. }
  apply server_answers_inv in H2 as (Hs2 & Hp2 & _).
  unfold commit, and_then. simpl.
  match goal with |- context [server_answers ?c] =>
    destruct (server_answers c) as [[[]|e] c3] eqn:H3 end.
  - pose proof (visible_server_answers _ _ _ H3) as Hv3.
    apply server_answers_inv in H3 as (Hs3 & Hp3 & _). simpl in *.
    intros [= <- <-]. right. split; [done|]. exists lat, lng. split; [done|].
    right. repeat split. simpl. f_equal; [congruence|].
    rewrite Hv3. unfold visible. simpl. rewrite Hs2, Hp2, Hs1, Hp1.
    by rewrite <- app_assoc.
  - apply server_answers_inv in H3 as (Hs3 & Hp3 & [[? _]|[[= ->] _]]); [done|].
    simpl in *. intros [= <- <-]. right. split; [done|]. exists lat, lng.
    split; [done|]. left. repeat split; congruence.
Qed.

(** [conn.rollback()] abandons the open transaction or raises. *)
Lemma rollback_cases (conn conn' : connection) (r : result unit) :
  rollback conn = (r, conn') →
  store conn' = store conn
  ∧ (r = Ok () ∧ pending conn' = [] ∨ r = Raise DatabaseError ∧ pending conn' = pending conn).
Proof.
  unfold rollback, and_then.
  destruct (server_answers conn) as [[[]|e] c1] eqn:H1.
  - apply server_answers_inv in H1 as (? & ? & _). intros [= <- <-]. simpl. auto.
  - apply server_answers_inv in H1 as (? & ? & [[? _]|[[= ->] _]]); [done|].
    intros [= <- <-]. auto.
Qed.

(** [save_geolocation] runs the body and, when the body raises, the
    rollback. *)
Lemma save_geolocation_unfold (geo_data : GeocodeResult) (conn : connection) :
  save_geolocation client_id geo_data conn =
    match check_and_insert client_id geo_data conn with
    | (Ok saved_now, conn') => (Ok saved_now, conn')
    | (Raise _, conn') =>
        match rollback conn' with
        | (Ok _, conn'') => (Ok false, conn'')
        | (Raise e, conn'') => (Raise e, conn'')
        end
    end.
Proof.
  unfold save_geolocation, try_except, and_then, ret.
  destruct (check_and_insert client_id geo_data conn) as [[b|e] c1]; [done|].
  by destruct (rollback c1) as [[[]|e'] c2].
Qed.

(** The rows a statement sees after a call of the writer: the same
    rows, the committed ones alone, or one more row for a client that
    had none. *)
Lemma save_geolocation_visible (geo_data : GeocodeResult)
    (conn conn' : connection) (r : result bool) :
  save_geolocation client_id geo_data conn = (r, conn') →
  clients (store conn') = clients (store conn)
  ∧ (visible conn' = visible conn
     ∨ visible conn' = geolocation (store conn)
     ∨ client_rows_of client_id (visible conn) = []
       ∧ ∃ lat lng, visible conn' = visible conn ++ [new_row client_id lat lng]).
Proof.
  rewrite save_geolocation_unfold.
  destruct (check_and_insert client_id geo_data conn) as [[b|e] c1] eqn:Hbody.
  - intros [= <- <-].
    apply check_and_insert_cases in Hbody
      as [(Hs & Hp & _)|(Hnone & lat & lng & _ & [(? & _)|(_ & Hp & Hs)])];
      [| done |].
    + unfold visible. rewrite Hs, Hp. auto.
    + rewrite Hs. split; [done|]. right. right. split; [done|].
      exists lat, lng. unfold visible at 1. by rewrite Hs, Hp, app_nil_r.
  - assert (clients (store c1) = clients (store conn)
            ∧ (visible c1 = visible conn ∧ geolocation (store c1) = geolocation (store conn)
               ∨ geolocation (store c1) = geolocation (store conn)
                 ∧ client_rows_of client_id (visible conn) = []
                 ∧ ∃ lat lng, visible c1 = visible conn ++ [new_row client_id lat lng]))
      as [Hcl Hc1].
    { apply check_and_insert_cases in Hbody
        as [(Hs & Hp & _)|(Hnone & lat & lng & _ & [(_ & Hs & Hp)|(? & _)])];
        [| |done]; unfold visible; rewrite Hs, ?Hp; split; auto.
      right. repeat split; [done|]. exists lat, lng. by rewrite app_assoc. }
    destruct (rollback c1) as [[[]|e'] c2] eqn:Hrb; intros [= <- <-];
      apply rollback_cases in Hrb as (Hs2 & [[? Hp2]|[? Hp2]]); try done;
      rewrite Hs2; (split; [done|]).
    + right. left. unfold visible. rewrite Hs2, Hp2, app_nil_r.
      by destruct Hc1 as [[_ ?]|[? _]].
    + assert (visible c2 = visible c1) as -> by (unfold visible; by rewrite Hs2, Hp2).
      destruct Hc1 as [[? _]|(_ & ? & ?)]; auto.
Qed.

(** The writer on a connection whose server answers every call. *)
Lemma save_geolocation_reliable (geo_data : GeocodeResult) (conn : connection) :
  reliable conn →
  ∃ conn', reliable conn'
    ∧ (client_rows_of client_id (visible conn) ≠ []
       ∧ save_geolocation client_id geo_data conn = (Ok false, conn')
       ∧ store conn' = store conn ∧ pending conn' = pending conn
       ∨ client_rows_of client_id (visible conn) = []
         ∧ (∃ lat lng, coordinates geo_data = Ok (lat, lng)
              ∧ save_geolocation client_id geo_data conn = (Ok true, conn')
              ∧ pending conn' = []
              ∧ store conn' =
                {| clients := clients (store conn);
                   geolocation := visible conn ++ [new_row client_id lat lng] |})
       ∨ client_rows_of client_id (visible conn) = []
         ∧ (∃ e, coordinates geo_data = Raise e)
         ∧ save_geolocation client_id geo_data conn = (Ok false, conn')
         ∧ store conn' = store conn ∧ pending conn' = []).
Proof.
  intros Hrel. rewrite save_geolocation_unfold.
  unfold check_and_insert, select_existing, and_then.
  destruct (server_answers_reliable conn Hrel) as (c1 & -> & Hs1 & Hp1 & Hrel1).
  assert (visible c1 = visible conn) as -> by (unfold visible; by rewrite Hs1, Hp1).
  destruct (head _) as [found|] eqn:Hex.
  { exists c1. split; [done|]. left. repeat split; try done.
    intros Hnone%existing_None. by rewrite Hnone in Hex. }
  apply existing_None in Hex. unfold lift.
  destruct (coordinates geo_data) as [[lat lng]|e] eqn:Hgeo.
  - unfold insert_geolocation, commit, and_then.
    destruct (server_answers_reliable c1 Hrel1) as (c2 & -> & Hs2 & Hp2 & Hrel2).
    set (c2' := {| store := store c2;
                   pending := pending c2 ++ [new_row client_id (lat, lng).1 (lat, lng).2];
                   faults := faults c2 |}).
    assert (reliable c2') as Hrel2' by done.
    destruct (server_answers_reliable c2' Hrel2') as (c3 & -> & Hs3 & Hp3 & Hrel3).
    eexists. split;
      [|right; left; split; [done|]; exists lat, lng;
        split; [done|]; split; [reflexivity|]; split; [reflexivity|]].
    + exact Hrel3.
    + subst c2'. simpl in *. f_equal; [by rewrite Hs3, Hs2, Hs1|].
      unfold visible. rewrite Hs3, Hp3, Hs2, Hp2, Hs1, Hp1.
      by rewrite <- app_assoc.
  - unfold rollback, and_then, ret.
    destruct (server_answers_reliable c1 Hrel1) as (c2 & -> & Hs2 & Hp2 & Hrel2).
    eexists. split;
      [|right; right; split; [done|]; split; [by exists e|];
        split; [reflexivity|]; split; [|reflexivity]].
    + exact Hrel2.
    + simpl. by rewrite Hs2.
Qed.

End Writer.

(** Dropping rows or adding the row of a client that has none keeps
    the invariant. *)
Lemma at_most_one_row_prefix (rows more : list GeolocationRow) :
  at_most_one_row (rows ++ more) → at_most_one_row rows.
Proof.
  intros H k. specialize (H k). unfold client_rows_of in *.
  rewrite filter_app, length_app in H. lia.
Qed.

Lemma at_most_one_row_snoc (rows : list GeolocationRow) (client_id : Z) (lat lng : json) :
  at_most_one_row rows →
  client_rows_of client_id rows = [] →
  at_most_one_row (rows ++ [new_row client_id lat lng]).
Proof.
  intros H Hnone k. specialize (H k). unfold client_rows_of in *.
  rewrite filter_app, length_app, filter_cons, filter_nil.
  case_decide as Hk; simpl in *; [|lia].
  destruct Hk as [[= <-] _]. rewrite Hnone. simpl. lia.
Qed.

(** C6.  Every call to [save_geolocation] keeps the invariant "at most
    one geolocation row per id with type ['client']", whatever the
    server answers.  Called twice in sequence for the same client id,
    on a connection whose server answers and for a client that has no
    row yet, the first call inserts the row and returns [True] (saved),
    the second detects the row and returns [False] (skipped), and leaves
    the store with that single row. *)
Theorem writer_keeps_one_row
    (client_id : Z) (geo_data : GeocodeResult) (conn : connection) :
  at_most_one_row (visible conn) →
  (∀ r conn', save_geolocation client_id geo_data conn = (r, conn') →
     at_most_one_row (visible conn'))
  ∧ (∀ lat lng formatted place,
       geo_data = Success lat lng formatted place →
       reliable conn →
       client_rows_of client_id (visible conn) = [] →
       ∃ conn1,
         save_geolocation client_id geo_data conn = (Ok true, conn1)
         ∧ geolocation (store conn1) = visible conn ++ [new_row client_id lat lng]
         ∧ pending conn1 = []
         ∧ ∀ again, ∃ conn2,
             save_geolocation client_id again conn1 = (Ok false, conn2)
             ∧ store conn2 = store conn1 ∧ pending conn2 = pending conn1
             ∧ client_rows_of client_id (visible conn2)
               = [new_row client_id lat lng]).
Proof.
  intros Hinv. split.
  - intros r conn' Hsave.
    apply save_geolocation_visible in Hsave
      as (_ & [->|[->|(Hnone & lat & lng & ->)]]); [done| |].
    + by apply at_most_one_row_prefix with (pending conn).
    + by apply at_most_one_row_snoc.
  - intros lat lng formatted place -> Hrel Hnone.
    destruct (save_geolocation_reliable client_id (Success lat lng formatted place)
                conn Hrel)
      as (conn1 & Hrel1 & [(Hsome & _)|[(_ & la & ln & [= <- <-] & Hrun & Hp & Hs)
                                        |(_ & [e [=]] & _)]]); [done|].
    exists conn1. rewrite Hs. repeat split; [done..|].
    assert (client_rows_of client_id (visible conn1) = [new_row client_id lat lng])
      as Hrows.
    { unfold visible. rewrite Hs, Hp, app_nil_r. simpl.
      unfold client_rows_of in *. rewrite filter_app, Hnone. simpl.
      rewrite filter_cons, decide_True by done. done. }
    intros again.
    destruct (save_geolocation_reliable client_id again conn1 Hrel1)
      as (conn2 & _ & [(_ & Hrun2 & Hs2 & Hp2)|[(Hnone2 & _)|(Hnone2 & _)]]).
    + exists conn2. rewrite <- Hs. repeat split; try done.
      unfold visible. rewrite Hs2, Hp2. exact Hrows.
    + by rewrite Hnone2 in Hrows.
    + by rewrite Hnone2 in Hrows.
Qed.

Lemma writer_keeps_one_row_witness :
  at_most_one_row (visible (session mixed_store []))
  ∧ ∃ conn1,
      save_geolocation 1 sample_geo (session mixed_store []) = (Ok true, conn1)
      ∧ at_most_one_row (visible conn1)
      ∧ ∃ conn2, save_geolocation 1 sample_geo conn1 = (Ok false, conn2)
                 ∧ store conn2 = store conn1.
Proof.
  assert (at_most_one_row (visible (session mixed_store []))) as Hinv.
  { intros k. unfold client_rows_of, visible. simpl.
    rewrite !filter_cons, filter_nil.
    repeat case_decide; simpl; try lia; exfalso; simpl in *;
      repeat match goal with H : _ ∧ _ |- _ => destruct H end; congruence. }
  split; [exact Hinv|].
  destruct (writer_keeps_one_row 1 sample_geo (session mixed_store []) Hinv)
    as [Hkeep Htwice].
  destruct (Htwice _ _ _ _ eq_refl) as (conn1 & Hrun & _ & _ & Hagain).
  - intros fault Hin. by apply elem_of_nil in Hin.
  - reflexivity.
  - exists conn1. split; [exact Hrun|]. split; [exact (Hkeep _ _ Hrun)|].
    destruct (Hagain sample_geo) as (conn2 & Hrun2 & Hs2 & _).
    exists conn2. by split.
Defined.

(** The writer returns [False] for a client that has a row. *)
Lemma save_geolocation_skips
    (client_id : Z) (geo_data : GeocodeResult) (conn : connection) :
  reliable conn →
  client_rows_of client_id (visible conn) ≠ [] →
  (save_geolocation client_id geo_data conn).1 = Ok false.
Proof.
  intros Hrel Hsome.
  destruct (save_geolocation_reliable client_id geo_data conn Hrel)
    as (conn' & _ & [(_ & -> & _)|[(Hnone & _)|(Hnone & _)]]); done.
Qed.

(** The error path of the writer, for every call: when the [try] body
    raises and the rollback goes through, nothing of the call stays in
    the store and the writer returns [False], the value of its
    "already exists" path; the loop body, which has nothing else to go
    by, then takes its "skipped" branch. *)
Lemma save_error_returns_false
    (provider : oracle) (client : ClientRecord) (t : tally) (w : world)
    (lat lng formatted place : json) (e : exn) (c1 c2 : connection) :
  get_geolocation (provider (length (requests w)) (build_address_string client))
  = Success lat lng formatted place →
  check_and_insert (id client) (Success lat lng formatted place) (conn w) = (Raise e, c1) →
  rollback c1 = (Ok (), c2) →
  save_geolocation (id client) (Success lat lng formatted place) (conn w) = (Ok false, c2)
  ∧ pending c2 = []
  ∧ store c2 = store (conn w)
  ∧ (∀ other, reliable other →
       client_rows_of (id client) (visible other) ≠ [] →
       (save_geolocation (id client) (Success lat lng formatted place) other).1
       = Ok false)
  ∧ process_client provider client t w
    = (Ok {| success_count := success_count t;
             failed_count := failed_count t;
             skipped_count := S (skipped_count t);
             results := results t ++
               [Skipped (id client) (client_name client) "Already exists in database"] |},
       {| conn := c2;
          requests := requests w ++ [build_address_string client];
          sleeps := sleeps w |}).
Proof.
  intros Hgeo Hbody Hrb.
  assert (save_geolocation (id client) (Success lat lng formatted place) (conn w)
          = (Ok false, c2)) as Hsave.
  { by rewrite save_geolocation_unfold, Hbody, Hrb. }
  split; [exact Hsave|].
  apply rollback_cases in Hrb as (Hs2 & [[_ Hp2]|[[=] _]]).
  apply check_and_insert_cases in Hbody
    as [(Hs1 & _)|(_ & la & ln & _ & [(_ & Hs1 & _)|([=] & _)])];
    (split; [done|]); (split; [congruence|]);
    (split; [intros other; apply save_geolocation_skips|]);
    unfold process_client, geocode, save; cbn [conn requests sleeps];
    by rewrite Hgeo, Hsave.
Qed.

(** C1, at a store with one client, no geolocation row, and a server
    that fails the commit.  The insert has put the row in the open
    transaction when the commit raises; the rollback removes it, and
    the store holds no row for the client.  The writer returns
    [False], the value it returns for a client that has a row, and the
    run records the client with status ["skipped"] and the reason
    ["Already exists in database"], counted under [skipped_count]: not
    a failed save, as the claim has it and as the loop records a failed
    geocoding. *)
Theorem commit_error_recorded_as_skipped :
  (∃ c1,
     check_and_insert 1 sample_geo (session one_client_store [false; false; true])
     = (Raise DatabaseError, c1)
     ∧ pending c1 = [new_row 1 (JInt 12) (JInt 77)])
  ∧ (∃ c2,
       save_geolocation 1 sample_geo (session one_client_store [false; false; true])
       = (Ok false, c2)
       ∧ pending c2 = [] ∧ geolocation (store c2) = [])
  ∧ (save_geolocation 1 sample_geo
       (session {| clients := [asha]; geolocation := [client_row 1] |} [])).1
    = Ok false
  ∧ returned (process_clients sample_config sample_provider one_client_store
                commit_fails None)
    = Some [Skipped 1 (Some "Asha Traders") "Already exists in database"]
  ∧ summary (process_clients sample_config sample_provider one_client_store
               commit_fails None)
    = Some {| processed := 1; saved := 0; skipped := 1; failed := 0 |}
  ∧ geolocation (final (process_clients sample_config sample_provider one_client_store
                          commit_fails None)) = []
  ∧ returned (process_clients sample_config sample_provider one_client_store
                insert_fails None)
    = Some [Skipped 1 (Some "Asha Traders") "Already exists in database"]
  ∧ status <$>
      default [] (returned (process_clients sample_config provider_down
                              one_client_store [] None))
    = ["failed"].
Proof.
  split; [eexists; split; reflexivity|].
  split; [eexists; split; [reflexivity|split; reflexivity]|].
  repeat split.
Qed.

(** ** The batch orchestrator *)

(** *** The limit *)

(** A positive limit keeps the prefix of that length. *)
Lemma apply_limit_positive (n : Z) (all_clients : list ClientRecord) :
  0 < n →
  apply_limit (Some n) all_clients
  = take (Z.to_nat n `min` length all_clients) all_clients.
Proof.
  intros Hn. unfold apply_limit, slice_to.
  destruct (Z.eqb_spec n 0) as [->|_]; [lia|]. simpl.
  destruct (Z.leb_spec 0 n); [|lia].
  destruct (Nat.min_spec (Z.to_nat n) (length all_clients)) as [[Hlt ->]|[Hge ->]];
    [done|].
  by rewrite !take_ge by lia.
Qed.

(** C4, at the limit 0.  The docstring of [process_clients] calls
    [limit] the "number of clients to process", yet [if limit:] takes 0
    for no limit at all: the run keeps every candidate, where a maximum
    of 0 asks for none.  On a store with three candidates the run with
    limit 0 sends three addresses to the provider and returns three
    records. *)
Theorem limit_zero_processes_all :
  (∀ all_clients, apply_limit (Some 0) all_clients = all_clients)
  ∧ sent (process_clients sample_config sample_provider three_client_store [] (Some 0))
    = ["12 MG Road, Bengaluru, Karnataka, 560001, India"; "Pune, India"; "India"]
  ∧ outcome_id <$>
      default [] (returned (process_clients sample_config sample_provider
                              three_client_store [] (Some 0)))
    = [1; 2; 3].
Proof. split; [done|]. split; reflexivity. Qed.

(** *** Runs without candidates *)

Lemma connect_store (d : database) (schedule : list bool) (c : connection) :
  connect d schedule = (Ok (), c) → store c = d ∧ pending c = [].
Proof. unfold connect. by intros (? & ? & _)%server_answers_inv. Qed.

(** C3, as the code has it.  When the configuration is complete, the
    connection and the query go through and the fetched list, cut to the
    limit, is empty, [process_clients] returns nothing (Python's
    [None], not an empty list), prints no summary, sends no address to
    the provider and leaves the store as it was. *)
Theorem empty_run_returns_nothing
    (cfg : config) (provider : oracle) (d : database) (schedule : list bool)
    (limit : option Z) (c0 c1 : connection) (all_clients : list ClientRecord) :
  truthy_text (PG_HOST cfg) = true →
  truthy_text (GOOGLE_API_KEY cfg) = true →
  connect d schedule = (Ok (), c0) →
  get_clients_without_geolocation c0 = (Ok all_clients, c1) →
  apply_limit limit all_clients = [] →
  process_clients cfg provider d schedule limit
  = {| returned := None; summary := None; final := d; sent := []; pauses := 0 |}.
Proof.
  intros Hhost Hkey Hconnect Hfetch Hempty.
  unfold process_clients. rewrite Hhost, Hkey, Hconnect. simpl.
  unfold fetch_and_process. cbn [conn requests sleeps]. rewrite Hfetch, Hempty.
  cbn [conn requests sleeps]. unfold close, discard. simpl.
  apply candidate_source_returned in Hfetch as (_ & -> & _).
  by apply connect_store in Hconnect as [-> _].
Qed.

Lemma empty_run_returns_nothing_witness :
  process_clients sample_config sample_provider empty_store [] None
  = {| returned := None; summary := None; final := empty_store;
       sent := []; pauses := 0 |}.
Proof.
  apply (empty_run_returns_nothing sample_config sample_provider empty_store [] None
           (session empty_store []) (session empty_store []) []);
    reflexivity.
Defined.

(** C3 as stated does not hold: on an empty store the run returns
    nothing where the claim has it return the empty sequence. *)
Lemma empty_run_returns_no_list :
  returned (process_clients sample_config sample_provider empty_store [] None) = None
  ∧ returned (process_clients sample_config sample_provider empty_store [] None)
    ≠ Some [].
Proof. split; [reflexivity|discriminate]. Qed.

(** *** The loop *)

Section Loop.

Variable provider : oracle.

(** The three ways the body of the loop ends on a connection whose
    server answers. *)
Lemma process_client_saved (client : ClientRecord) (t : tally) (w : world)
    (lat lng formatted place : json) :
  reliable (conn w) →
  get_geolocation (provider (length (requests w)) (build_address_string client))
  = Success lat lng formatted place →
  client_rows_of (id client) (visible (conn w)) = [] →
  ∃ c,
    process_client provider client t w
    = (Ok {| success_count := S (success_count t);
             failed_count := failed_count t;
             skipped_count := skipped_count t;
             results := results t ++
               [Saved (id client) (client_name client) lat lng formatted] |},
       {| conn := c; requests := requests w ++ [build_address_string client];
          sleeps := sleeps w |})
    ∧ reliable c ∧ pending c = []
    ∧ store c = {| clients := clients (store (conn w));
                   geolocation := visible (conn w) ++ [new_row (id client) lat lng] |}.
Proof.
  intros Hrel Hgeo Hnone.
  destruct (save_geolocation_reliable (id client) (Success lat lng formatted place)
              (conn w) Hrel)
    as (c & Hrel' & [(Hsome & _)|[(_ & la & ln & [= <- <-] & Hrun & Hp & Hs)
                                  |(_ & [e [=]] & _)]]); [done|].
  exists c. unfold process_client, geocode, save. cbn [conn requests sleeps].
  by rewrite Hgeo, Hrun.
Qed.

Lemma process_client_skipped (client : ClientRecord) (t : tally) (w : world)
    (lat lng formatted place : json) :
  reliable (conn w) →
  get_geolocation (provider (length (requests w)) (build_address_string client))
  = Success lat lng formatted place →
  client_rows_of (id client) (visible (conn w)) ≠ [] →
  ∃ c,
    process_client provider client t w
    = (Ok {| success_count := success_count t;
             failed_count := failed_count t;
             skipped_count := S (skipped_count t);
             results := results t ++
               [Skipped (id client) (client_name client) "Already exists in database"] |},
       {| conn := c; requests := requests w ++ [build_address_string client];
          sleeps := sleeps w |})
    ∧ reliable c ∧ pending c = pending (conn w) ∧ store c = store (conn w).
Proof.
  intros Hrel Hgeo Hsome.
  destruct (save_geolocation_reliable (id client) (Success lat lng formatted place)
              (conn w) Hrel)
    as (c & Hrel' & [(_ & Hrun & Hs & Hp)|[(Hnone & _)|(Hnone & _)]]); [|done..].
  exists c. unfold process_client, geocode, save. cbn [conn requests sleeps].
  by rewrite Hgeo, Hrun.
Qed.

Lemma process_client_failed (client : ClientRecord) (t : tally) (w : world)
    (error : json) (message : text) :
  get_geolocation (provider (length (requests w)) (build_address_string client))
  = Failure error message →
  process_client provider client t w
  = (Ok {| success_count := success_count t;
           failed_count := S (failed_count t);
           skipped_count := skipped_count t;
           results := results t ++
             [Failed (id client) (client_name client) error message] |},
     {| conn := conn w; requests := requests w ++ [build_address_string client];
        sleeps := sleeps w |}).
Proof. intros Hgeo. unfold process_client, geocode. by rewrite Hgeo. Qed.

(** One pass of the body appends one record, of the client at hand,
    and adds one to one of the three counters. *)
Lemma process_client_tally (client : ClientRecord) (t t' : tally) (w w' : world) :
  process_client provider client t w = (Ok t', w') →
  (success_count t' + skipped_count t' + failed_count t'
   = S (success_count t + skipped_count t + failed_count t))%nat
  ∧ ∃ o, results t' = results t ++ [o] ∧ outcome_id o = id client.
Proof.
  unfold process_client, geocode.
  destruct (get_geolocation _) as [lat lng formatted place|error message].
  - destruct (save _ _ _) as [[[]|e] w1]; intros [= <- <-]; simpl;
      (split; [lia|eauto]).
  - intros [= <- <-]. simpl. split; [lia|eauto].
Qed.

Lemma for_each_tally (total : nat) (todo : list ClientRecord) :
  ∀ (idx : nat) (t t' : tally) (w w' : world),
    for_each provider total idx todo t w = (Ok t', w') →
    (success_count t' + skipped_count t' + failed_count t'
     = success_count t + skipped_count t + failed_count t + length todo)%nat
    ∧ ∃ outcomes, results t' = results t ++ outcomes
                  ∧ outcome_id <$> outcomes = id <$> todo.
Proof.
  induction todo as [|client rest IH]; intros idx t t' w w'; simpl.
  - intros [= <- <-]. split; [lia|]. exists []. by rewrite app_nil_r.
  - destruct (process_client provider client t w) as [[t1|e] w1] eqn:Hone;
      [|discriminate].
    intros Hrest. apply process_client_tally in Hone as (Hsum & o & Hres & Hid).
    apply IH in Hrest as (Hsum' & outcomes & Hres' & Hids).
    split; [lia|]. exists (o :: outcomes).
    rewrite Hres', Hres, <- app_assoc. split; [done|].
    rewrite !fmap_cons. by rewrite Hid, Hids.
Qed.

End Loop.



(** *** A second run *)

(** The writer returns [True] only after it has committed the row. *)
Lemma save_geolocation_true
    (client_id : Z) (geo_data : GeocodeResult) (conn conn' : connection) :
  save_geolocation client_id geo_data conn = (Ok true, conn') →
  pending conn' = []
  ∧ ∃ lat lng,
      store conn' = {| clients := clients (store conn);
                       geolocation := visible conn ++ [new_row client_id lat lng] |}.
Proof.
  rewrite save_geolocation_unfold.
  destruct (check_and_insert client_id geo_data conn) as [[b|e] c1] eqn:Hbody.
  - intros [= -> <-].
    apply check_and_insert_cases in Hbody
      as [(_ & _ & Hne & _)|(_ & lat & lng & _ & [([=] & _)|(_ & Hp & Hs)])];
      [done|]. eauto.
  - by destruct (rollback c1) as [[[]|e'] c2].
Qed.

(** A pass of the loop body that appends a record of status
    ["success"] has committed the row of the client. *)
Lemma process_client_success_inv
    (provider : oracle) (client : ClientRecord) (t t' : tally) (w w' : world)
    (o : OutcomeRecord) :
  process_client provider client t w = (Ok t', w') →
  results t' = results t ++ [o] →
  status o = "success" →
  pending (conn w') = []
  ∧ ∃ lat lng,
      store (conn w') = {| clients := clients (store (conn w));
                           geolocation := visible (conn w) ++
                                          [new_row (id client) lat lng] |}.
Proof.
  unfold process_client, geocode, save. cbn [conn requests sleeps].
  destruct (get_geolocation _) as [lat lng formatted place|error message].
  - destruct (save_geolocation _ _ (conn w)) as [[[]|e] c1] eqn:Hsave;
      intros [= <- <-]; simpl.
    + intros _ _. by apply save_geolocation_true in Hsave.
    + intros [= <-]%app_inj_tail%proj2. discriminate.
  - intros [= <- <-]. simpl. intros [= <-]%app_inj_tail%proj2. discriminate.
Qed.

(** After a loop all of whose records have status ["success"], every
    client of the list has a committed row of type ['client'], the rows
    committed before are still there, and no transaction is open. *)
Lemma for_each_all_saved (provider : oracle) (total : nat) (todo : list ClientRecord) :
  ∀ (idx : nat) (t t' : tally) (w w' : world) (outcomes : list OutcomeRecord),
    for_each provider total idx todo t w = (Ok t', w') →
    results t' = results t ++ outcomes →
    Forall (λ o, status o = "success") outcomes →
    pending (conn w) = [] →
    pending (conn w') = []
    ∧ clients (store (conn w')) = clients (store (conn w))
    ∧ (∀ g, g ∈ geolocation (store (conn w)) → g ∈ geolocation (store (conn w')))
    ∧ (∀ c, c ∈ todo → ∃ lat lng,
         new_row (id c) lat lng ∈ geolocation (store (conn w'))).
Proof.
  induction todo as [|client rest IH]; intros idx t t' w w' outcomes; simpl.
  - intros [= <- <-] _ _ Hp. repeat split; [done|done|].
    intros c Hc. by apply elem_of_nil in Hc.
  - destruct (process_client provider client t w) as [[t1|e] w1] eqn:Hone;
      [|discriminate].
    intros Hrest Hres Hall Hp.
    destruct (process_client_tally _ _ _ _ _ _ Hone) as (_ & o & Hres1 & _).
    destruct (for_each_tally _ _ _ _ _ _ _ _ Hrest) as (_ & later & Hres' & _).
    assert (outcomes = o :: later) as ->.
    { apply (app_inv_head (results t)). rewrite <- Hres, Hres', Hres1.
      by rewrite <- app_assoc. }
    apply Forall_cons in Hall as [Ho Hlater].
    destruct (process_client_success_inv _ _ _ _ _ _ _ Hone Hres1 Ho)
      as (Hp1 & lat & lng & Hs1).
    set (w1' := if (idx <? total)%nat then sleep w1 else w1) in *.
    assert (conn w1' = conn w1) as Hc1 by (subst w1'; by destruct (_ <? _)%nat).
    apply (IH _ _ _ _ _ later) in Hrest as (Hp' & Hcl' & Hmono & Hrows);
      [|done|done|by rewrite Hc1].
    rewrite Hc1 in Hcl', Hmono. rewrite Hs1 in Hcl', Hmono. simpl in Hcl', Hmono.
    split; [done|]. split; [done|]. split.
    + intros g Hg. apply Hmono. apply elem_of_app. left.
      unfold visible. rewrite Hp, app_nil_r. done.
    + intros c [->|Hc]%elem_of_cons; [|by apply Hrows].
      exists lat, lng. apply Hmono. apply elem_of_app. right. by left.
Qed.

Lemma apply_limit_nil (limit : option Z) : apply_limit limit [] = [].
Proof.
  destruct limit as [n|]; [|done]. unfold apply_limit, slice_to.
  destruct (negb _); [|done]. destruct (Z.leb 0 n); apply take_nil.
Qed.

(** A run on a store without candidates, whatever the configuration,
    the provider, the server's answers and the limit. *)
Lemma run_without_candidates
    (cfg : config) (provider : oracle) (d : database) (schedule : list bool)
    (limit : option Z) :
  candidate_rows (session d []) = [] →
  process_clients cfg provider d schedule limit
  = {| returned := None; summary := None; final := d; sent := []; pauses := 0 |}.
Proof.
  intros Hnone. unfold process_clients.
  destruct (negb _); [done|].
  destruct (connect d schedule) as [[[]|e] c] eqn:Hconnect; [|done].
  unfold connect in Hconnect.
  pose proof (candidate_rows_server_answers _ _ _ Hconnect) as Hrows.
  apply server_answers_inv in Hconnect as (Hs & Hp & _). simpl in Hs, Hp.
  unfold fetch_and_process, get_clients_without_geolocation, and_then.
  cbn [conn requests sleeps].
  destruct (server_answers c) as [[[]|e] c1] eqn:Hfetch.
  - rewrite (candidate_rows_server_answers _ _ _ Hfetch), Hrows.
    replace (candidate_rows {| store := d; pending := []; faults := schedule |})
      with (candidate_rows (session d [])) by done.
    rewrite Hnone, apply_limit_nil. cbn [conn requests sleeps].
    apply server_answers_inv in Hfetch as (Hs1 & _).
    unfold close, discard. simpl. by rewrite Hs1, Hs.
  - apply server_answers_inv in Hfetch as (Hs1 & _).
    unfold close, discard. simpl. by rewrite Hs1, Hs.
Qed.

(** A run that returns a list went through the loop. *)
Lemma process_clients_returned_inv
    (cfg : config) (provider : oracle) (d : database) (schedule : list bool)
    (limit : option Z) (outcomes : list OutcomeRecord) :
  returned (process_clients cfg provider d schedule limit) = Some outcomes →
  ∃ c1 t w',
    store c1 = d ∧ pending c1 = []
    ∧ for_each provider
        (length (apply_limit limit (candidate_rows (session d [])))) 1
        (apply_limit limit (candidate_rows (session d []))) empty_tally
        {| conn := c1; requests := []; sleeps := 0 |}
      = (Ok t, w')
    ∧ outcomes = results t
    ∧ final (process_clients cfg provider d schedule limit) = store (conn w').
Proof.
  unfold process_clients.
  destruct (negb _); [discriminate|].
  destruct (connect d schedule) as [[[]|e] c] eqn:Hconnect; [|discriminate].
  unfold connect in Hconnect.
  pose proof (candidate_rows_server_answers _ _ _ Hconnect) as Hrows.
  apply server_answers_inv in Hconnect as (Hs & Hp & _). simpl in Hs, Hp.
  unfold fetch_and_process. cbn [conn requests sleeps].
  destruct (get_clients_without_geolocation c) as [[all_clients|e] c1] eqn:Hfetch;
    [|discriminate].
  apply candidate_source_returned in Hfetch as (-> & Hs1 & Hp1).
  rewrite Hrows.
  replace (candidate_rows {| store := d; pending := []; faults := schedule |})
    with (candidate_rows (session d [])) by done.
  destruct (apply_limit limit (candidate_rows (session d []))) as [|client rest];
    [discriminate|].
  destruct (for_each _ _ _ _ _ _) as [[t|e] w'] eqn:Hloop; [|discriminate].
  simpl. intros [= <-]. exists c1, t, w'.
  repeat split; [congruence|congruence|done].
Qed.

(** C2, as the code has it.  When a run of the whole batch returns a
    list in which every record has status ["success"], every client it
    processed has a committed row, and a second run on the store the
    first one left, with no client added, fetches no candidate at all:
    whatever the provider and the server answer, it returns nothing, so
    it holds no record for the clients saved before (no "skipped" record
    either), sends no address to the provider, inserts nothing and
    reports no failure. *)
Theorem second_run_has_no_candidates
    (cfg : config) (provider : oracle) (d : database) (schedule : list bool)
    (outcomes : list OutcomeRecord) :
  returned (process_clients cfg provider d schedule None) = Some outcomes →
  Forall (λ o, status o = "success") outcomes →
  outcome_id <$> outcomes = id <$> candidate_rows (session d [])
  ∧ (∀ c, c ∈ candidate_rows (session d []) →
       ∃ lat lng,
         new_row (id c) lat lng
         ∈ geolocation (final (process_clients cfg provider d schedule None)))
  ∧ ∀ cfg' provider' schedule' limit',
      process_clients cfg' provider'
        (final (process_clients cfg provider d schedule None)) schedule' limit'
      = {| returned := None; summary := None;
           final := final (process_clients cfg provider d schedule None);
           sent := []; pauses := 0 |}.
Proof.
  intros Hret Hall.
  destruct (process_clients_returned_inv _ _ _ _ _ _ Hret)
    as (c1 & t & w' & Hs1 & Hp1 & Hloop & -> & ->).
  cbn [apply_limit] in Hloop.
  destruct (for_each_tally _ _ _ _ _ _ _ _ Hloop) as (_ & outs & Hres & Hids).
  simpl in Hres. rewrite Hres in Hall |- *.
  destruct (for_each_all_saved _ _ _ _ _ _ _ _ outs Hloop Hres Hall Hp1)
    as (Hp' & Hcl & Hmono & Hrows).
  simpl in Hcl, Hmono. rewrite Hs1 in Hcl, Hmono.
  split; [done|]. split; [done|].
  intros cfg' provider' schedule' limit'. apply run_without_candidates.
  rewrite candidate_rows_spec. apply elem_of_nil_inv.
  intros c [[Hname Hnot] Hc]%list_elem_of_filter. simpl in Hc. rewrite Hcl in Hc.
  apply Hnot. unfold ids_typed_client, visible. simpl. rewrite app_nil_r.
  destruct (decide (Some (id c) ∈ ids_typed_client (session d []))) as [Hin|Hout].
  - unfold ids_typed_client, visible in Hin. simpl in Hin. rewrite app_nil_r in Hin.
    apply list_elem_of_fmap in Hin as (g & Hid & [Ht Hg]%list_elem_of_filter).
    apply list_elem_of_fmap. exists g. split; [done|].
    apply list_elem_of_filter. split; [done|]. by apply Hmono.
  - assert (c ∈ candidate_rows (session d [])) as Hcand.
    { rewrite candidate_rows_spec. by apply list_elem_of_filter. }
    apply Hrows in Hcand as (lat & lng & Hrow).
    apply list_elem_of_fmap. exists (new_row (id c) lat lng). split; [done|].
    by apply list_elem_of_filter.
Qed.

Lemma second_run_has_no_candidates_witness :
  returned (process_clients sample_config sample_provider one_client_store [] None)
  = Some [Saved 1 (Some "Asha Traders") (JInt 12) (JInt 77)
            (JStr "12 MG Road, Bengaluru, Karnataka, 560001, India")]
  ∧ process_clients sample_config sample_provider
      (final (process_clients sample_config sample_provider one_client_store [] None))
      [] None
    = {| returned := None; summary := None;
         final := final (process_clients sample_config sample_provider
                           one_client_store [] None);
         sent := []; pauses := 0 |}.
Proof.
  assert (returned (process_clients sample_config sample_provider one_client_store [] None)
          = Some [Saved 1 (Some "Asha Traders") (JInt 12) (JInt 77)
                    (JStr "12 MG Road, Bengaluru, Karnataka, 560001, India")])
    as Hfirst by reflexivity.
  split; [exact Hfirst|].
  destruct (second_run_has_no_candidates sample_config sample_provider
              one_client_store [] _ Hfirst) as (_ & _ & Hsecond).
  - by repeat constructor.
  - exact (Hsecond sample_config sample_provider [] None).
Defined.

(** C2 as stated does not hold: after a first run that saved the one
    client of the store, the second run returns nothing; it holds no
    record of status ["skipped"] for that client. *)
Lemma second_run_records_no_skip :
  returned (process_clients sample_config sample_provider one_client_store [] None)
  = Some [Saved 1 (Some "Asha Traders") (JInt 12) (JInt 77)
            (JStr "12 MG Road, Bengaluru, Karnataka, 560001, India")]
  ∧ returned
      (process_clients sample_config sample_provider
         (final (process_clients sample_config sample_provider one_client_store [] None))
         [] None)
    = None
  ∧ ¬ ∃ outcomes o,
        returned
          (process_clients sample_config sample_provider
             (final (process_clients sample_config sample_provider
                       one_client_store [] None))
             [] None)
        = Some outcomes
        ∧ o ∈ outcomes ∧ outcome_id o = 1 ∧ status o = "skipped".
Proof.
  split; [reflexivity|]. split; [reflexivity|].
  intros (outcomes & o & Hret & _). discriminate Hret.
Qed.

(** * Further properties *)

(** ** The geocoding client, further *)

Lemma on_exception_not_success (e : exn) (lat lng formatted place : json) :
  on_exception e ≠ Success lat lng formatted place.
Proof. unfold on_exception. by destruct (is_request_exception e). Qed.

Lemma on_exception_not_value (e : exn) (error v : json) :
  on_exception e ≠ Failure error (Value v).
Proof. unfold on_exception. by destruct (is_request_exception e). Qed.

(** Close a case in which the client ended in an [except] clause. *)
Ltac geo_absurd H :=
  solve [ exfalso; cbn [bind getitem getitem0 get_default] in H;
          first [ by apply on_exception_not_success in H
                | by apply on_exception_not_value in H
                | discriminate H ] ].

(** X1.  [get_geolocation] returns a success exactly for a body that is
    a dictionary with status ["OK"] whose [results] is a list starting
    with a dictionary that has [geometry.location.lat],
    [geometry.location.lng] and [formatted_address]; the four values
    returned are those of that first result, the place id being the
    empty string when the key is missing.  Any other reply, a transport
    error included, gives a failure. *)
Theorem geocode_success_iff (reply : http_reply) (lat lng formatted place : json) :
  get_geolocation reply = Success lat lng formatted place ↔
  ∃ fields others result geometry location,
    reply = Body (JObj fields)
    ∧ fields !! "status" = Some (JStr "OK")
    ∧ fields !! "results" = Some (JArr (JObj result :: others))
    ∧ result !! "geometry" = Some (JObj geometry)
    ∧ geometry !! "location" = Some (JObj location)
    ∧ location !! "lat" = Some lat
    ∧ location !! "lng" = Some lng
    ∧ result !! "formatted_address" = Some formatted
    ∧ place = default (JStr "") (result !! "place_id").
Proof.
  split.
  - intros H.
    destruct (get_geolocation_success_only _ _ _ _ _ H)
      as (fields & results & -> & Hs & Hr & Ht).
    revert H. geo_unfold. rewrite Hs. geo_step.
    cbn [eq_str String.eqb Ascii.eqb Bool.eqb]. rewrite Hr. geo_step.
    rewrite Ht. cbn [bind].
    destruct results as [| | | |s|[|first others]|o]; try discriminate Ht;
      intros H; try geo_absurd H.
    { destruct s; [discriminate Ht|]. geo_absurd H. }
    cbn [bind getitem0] in H.
    destruct first as [| | | | | |result]; try geo_absurd H.
    cbn [bind getitem] in H.
    destruct (result !! "geometry") as [geometry|] eqn:Hg; [|geo_absurd H].
    cbn [bind getitem] in H.
    destruct geometry as [| | | | | |geometry]; try geo_absurd H.
    cbn [bind getitem] in H.
    destruct (geometry !! "location") as [location|] eqn:Hl; [|geo_absurd H].
    cbn [bind getitem] in H.
    destruct (result !! "formatted_address") as [fa|] eqn:Hf; [|geo_absurd H].
    cbn [bind getitem] in H.
    destruct location as [| | | | | |location]; try geo_absurd H.
    cbn [bind getitem] in H.
    destruct (location !! "lat") as [la|] eqn:Hlat; [|geo_absurd H].
    cbn [bind getitem] in H.
    destruct (location !! "lng") as [ln|] eqn:Hlng; [|geo_absurd H].
    cbn [bind getitem get_default] in H. injection H as <- <- <- <-.
    exists fields, others, result, geometry, location. by repeat split.
  - intros (fields & others & result & geometry & location
            & -> & Hs & Hr & Hg & Hl & Hlat & Hlng & Hf & ->).
    by eapply get_geolocation_first_result.
Qed.

Lemma geocode_success_iff_witness :
  get_geolocation (Body two_results_body)
  = Success (JInt 12) (JInt 77) (JStr "Bengaluru") (JStr "first").
Proof.
  apply geocode_success_iff.
  eexists _, _, _, _, _. split; [reflexivity|]. by repeat split.
Defined.

(** X2.  Only the first result counts: whatever follows it in the
    list, [get_geolocation] gives what it gives for the first result
    alone. *)
Theorem geocode_ignores_later_results
    (fields : gmap string json) (first : json) (others : list json) :
  get_geolocation (Body (JObj (<["results" := JArr (first :: others)]> fields)))
  = get_geolocation (Body (JObj (<["results" := JArr [first]]> fields))).
Proof.
  geo_unfold.
  assert (∀ (v : json) (key : string), key ≠ "results" →
            <["results" := v]> fields !! key = fields !! key) as Hother
    by (intros; by apply lookup_insert_ne).
  rewrite !(Hother _ "status"), !(Hother _ "error_message") by done.
  destruct (fields !! "status") as [status|]; cbn [bind]; [|done].
  destruct (eq_str status "OK"); cbn [bind]; [|done].
  rewrite !lookup_insert_eq. reflexivity.
Qed.

(** X3.  A failure whose message comes from the body (and not from an
    exception) is reported only for a dictionary that has a [status]:
    the error code is that status, never a default, the message is the
    [error_message] of the body or ["No results found"], and either the
    status is not ["OK"] or the [results] value is empty. *)
Theorem geocode_reported_failure (reply : http_reply) (error v : json) :
  get_geolocation reply = Failure error (Value v) →
  ∃ fields,
    reply = Body (JObj fields)
    ∧ fields !! "status" = Some error
    ∧ v = default (JStr "No results found") (fields !! "error_message")
    ∧ (eq_str error "OK" = false
       ∨ ∃ results, fields !! "results" = Some results ∧ truthy results = false).
Proof.
  destruct reply as [e|data]; simpl; intros H; [geo_absurd H|].
  destruct (classify data) as [geo|e] eqn:Hc; [subst geo|geo_absurd H].
  unfold classify in Hc.
  destruct data as [| | | | | |fields]; try discriminate Hc.
  cbn [bind getitem] in Hc.
  destruct (fields !! "status") as [status|] eqn:Hs; [|discriminate Hc].
  cbn [bind] in Hc. exists fields.
  destruct (eq_str status "OK") eqn:Hok.
  - cbn [bind getitem] in Hc.
    destruct (fields !! "results") as [results|] eqn:Hr; [|discriminate Hc].
    cbn [bind] in Hc. destruct (truthy results) eqn:Ht.
    + exfalso. cbn [bind] in Hc.
      repeat match type of Hc with
             | bind ?r _ = _ => destruct r; cbn [bind] in Hc; try discriminate Hc
             end.
    + cbn [bind get_default] in Hc. rewrite Hs in Hc. simpl in Hc.
      injection Hc as <- <-. eauto 10.
  - cbn [bind get_default] in Hc. rewrite Hs in Hc. simpl in Hc.
    injection Hc as <- <-. eauto.
Qed.

Lemma geocode_reported_failure_witness :
  ∃ fields,
    Body zero_results_body = Body (JObj fields)
    ∧ fields !! "status" = Some (JStr "ZERO_RESULTS").
Proof.
  destruct (geocode_reported_failure (Body zero_results_body)
              (JStr "ZERO_RESULTS") (JStr "No results found") eq_refl)
    as (fields & Hbody & Hs & _).
  exists fields. by split.
Defined.

(** X4.  A body without a [results] key: when the status is not ["OK"]
    the key is never read and the failure carries the status; when the
    status is ["OK"] the subscript raises and the failure is
    [UNEXPECTED_ERROR]. *)
Theorem geocode_missing_results (fields : gmap string json) (status : json) :
  fields !! "results" = None →
  fields !! "status" = Some status →
  get_geolocation (Body (JObj fields))
  = if eq_str status "OK"
    then Failure (JStr "UNEXPECTED_ERROR") (StrOf (KeyError (JStr "results")))
    else Failure status
           (Value (default (JStr "No results found") (fields !! "error_message"))).
Proof.
  intros Hr Hs. destruct (eq_str status "OK") eqn:Hok.
  - geo_unfold. rewrite Hs. cbn [bind]. by rewrite Hok, Hr.
  - by apply get_geolocation_not_ok.
Qed.

Lemma geocode_missing_results_witness :
  get_geolocation (Body (JObj {["status" := JStr "OK"]}))
  = Failure (JStr "UNEXPECTED_ERROR") (StrOf (KeyError (JStr "results")))
  ∧ get_geolocation
      (Body (JObj (<["status" := JStr "REQUEST_DENIED"]>
                   {["error_message" := JStr "The provided API key is invalid."]})))
    = Failure (JStr "REQUEST_DENIED")
        (Value (JStr "The provided API key is invalid.")).
Proof.
  split.
  - exact (geocode_missing_results {["status" := JStr "OK"]} (JStr "OK")
             eq_refl eq_refl).
  - exact (geocode_missing_results
             (<["status" := JStr "REQUEST_DENIED"]>
              {["error_message" := JStr "The provided API key is invalid."]})
             (JStr "REQUEST_DENIED") eq_refl eq_refl).
Defined.

(** ** The address builder, further *)

Lemma string_app_assoc (a b c : string) : (a +:+ b) +:+ c = a +:+ b +:+ c.
Proof.
  induction a as [|ch a IH]; [done|].
  change (String ch ((a +:+ b) +:+ c) = String ch (a +:+ b +:+ c)).
  by rewrite IH.
Qed.

Lemma join_snoc (sep x : string) (parts : list string) :
  parts ≠ [] → join sep (parts ++ [x]) = join sep parts +:+ sep +:+ x.
Proof.
  induction parts as [|p [|q rest] IH]; intros Hne; [done|done|].
  change (join sep ((p :: q :: rest) ++ [x]))
    with (p +:+ sep +:+ join sep ((q :: rest) ++ [x])).
  rewrite IH by done.
  change (join sep (p :: q :: rest)) with (p +:+ sep +:+ join sep (q :: rest)).
  by rewrite !string_app_assoc.
Qed.

(** X5.  Whatever the record holds, the address ends with the country:
    between one and five parts are joined, the last of them is
    ["India"], and when a field passes its test the country comes after
    a [", "]. *)
Theorem address_ends_with_country (client : ClientRecord) :
  last (address_parts client) = Some "India"
  ∧ (1 ≤ length (address_parts client) ≤ 5)%nat
  ∧ ∃ before,
      build_address_string client = before +:+ "India"
      ∧ (non_empty_fields client = [] → before = "")
      ∧ (non_empty_fields client ≠ [] →
         before = join ", " (non_empty_fields client) +:+ ", ").
Proof.
  unfold build_address_string. rewrite address_parts_fields.
  split; [by rewrite last_snoc|]. split.
  - rewrite length_app. simpl. unfold non_empty_fields.
    rewrite !length_app.
    assert (∀ v, (length (non_empty_text v) ≤ 1)%nat) as Ht.
    { intros [s|]; simpl; [case_decide; simpl; lia|lia]. }
    assert (length (non_empty_scalar (pincode client)) ≤ 1)%nat as Hp.
    { destruct (pincode client) as [[n|s]|]; simpl; try case_decide; simpl; lia. }
    pose proof (Ht (address client)). pose proof (Ht (city client)).
    pose proof (Ht (state client)). lia.
  - destruct (non_empty_fields client) as [|p rest] eqn:Hf.
    + exists "". by repeat split.
    + exists (join ", " (p :: rest) +:+ ", "). split; [|by split].
      rewrite join_snoc by done. by rewrite string_app_assoc.
Qed.

Lemma address_ends_with_country_witness :
  ∃ before,
    build_address_string asha = before +:+ "India"
    ∧ before = "12 MG Road, Bengaluru, Karnataka, 560001, ".
Proof.
  destruct (address_ends_with_country asha) as (_ & _ & before & Heq & _ & Hne).
  exists before. split; [exact Heq|].
  rewrite Hne; [reflexivity|]. intros H. vm_compute in H. discriminate H.
Defined.

(** ** The limit, further *)

(** X6.  Whatever the limit, the candidates kept are a prefix of the
    fetched list.  A negative limit is Python's slice [[:n]]: the last
    [-n] candidates are dropped, all of them when the list is that
    short. *)
Theorem limit_negative_drops_tail (n : Z) (all_clients : list ClientRecord) :
  n < 0 →
  (∀ limit, apply_limit limit all_clients `prefix_of` all_clients)
  ∧ ∃ dropped,
      all_clients = apply_limit (Some n) all_clients ++ dropped
      ∧ length dropped = (Z.to_nat (- n) `min` length all_clients)%nat.
Proof.
  intros Hn. split.
  - intros [m|]; [|done]. unfold apply_limit, slice_to.
    destruct (negb _); [|done]. destruct (Z.leb 0 m); apply prefix_take.
  - unfold apply_limit, slice_to.
    destruct (Z.eqb_spec n 0) as [->|_]; [lia|]. simpl.
    destruct (Z.leb_spec 0 n); [lia|].
    exists (drop (length all_clients - Z.to_nat (- n)) all_clients).
    split; [by rewrite take_drop|]. rewrite length_drop. lia.
Qed.

Lemma limit_negative_drops_tail_witness :
  apply_limit (Some (-1)) [asha; bharat; chitra] = [asha; bharat]
  ∧ apply_limit (Some (-5)) [asha; bharat; chitra] = [].
Proof.
  destruct (limit_negative_drops_tail (-1) [asha; bharat; chitra]) as [_ _];
    [reflexivity|].
  destruct (limit_negative_drops_tail (-5) [asha; bharat; chitra]) as [_ _];
    [reflexivity|].
  split; reflexivity.
Defined.

(** ** The candidate source and the writer, together *)

(** The candidates depend on the geolocation rows only through the ids
    of the rows of type ['client']. *)
Lemma candidate_rows_ext (conn conn' : connection) :
  clients (store conn') = clients (store conn) →
  (∀ i, Some i ∈ ids_typed_client conn' ↔ Some i ∈ ids_typed_client conn) →
  candidate_rows conn' = candidate_rows conn.
Proof.
  intros Hcl Hids. rewrite !candidate_rows_spec, Hcl.
  apply filter_ext_elem. intros c _. by rewrite Hids.
Qed.

Lemma elem_of_ids_typed_client (conn : connection) (i : Z) :
  Some i ∈ ids_typed_client conn ↔ client_rows_of i (visible conn) ≠ [].
Proof.
  unfold ids_typed_client, client_rows_of. rewrite list_elem_of_fmap. split.
  - intros (g & Hid & [Ht Hg]%list_elem_of_filter) Hnone.
    assert (g ∈ filter (λ g, geo_id g = Some i ∧ geo_type g = Some "client")
                  (visible conn)) as Hin by (by apply list_elem_of_filter).
    rewrite Hnone in Hin. by apply elem_of_nil in Hin.
  - intros Hne. destruct (filter _ (visible conn)) as [|g gs] eqn:Hf; [done|].
    assert (g ∈ filter (λ g, geo_id g = Some i ∧ geo_type g = Some "client")
                  (visible conn)) as [[Hid Ht] Hg]%list_elem_of_filter
      by (rewrite Hf; left).
    exists g. split; [done|]. by apply list_elem_of_filter.
Qed.

(** X7.  A geolocation row that is not of type ['client'], or whose id
    is NULL or the id of no client, does not change what the candidate
    source returns. *)
Theorem candidate_source_ignores_row (g : GeolocationRow) (conn : connection) :
  geo_type g ≠ Some "client"
  ∨ (∀ c, c ∈ clients (store conn) → geo_id g ≠ Some (id c)) →
  candidate_rows (with_committed_row g conn) = candidate_rows conn.
Proof.
  intros Hg. rewrite !candidate_rows_spec. cbn [with_committed_row store clients].
  apply filter_ext_elem. intros c Hc.
  assert (Some (id c) ∈ ids_typed_client (with_committed_row g conn)
          ↔ Some (id c) ∈ ids_typed_client conn) as ->; [|done].
  unfold ids_typed_client, visible. cbn [with_committed_row store geolocation pending].
  rewrite !filter_app, !fmap_app, !elem_of_app.
  rewrite filter_cons, filter_nil.
  case_decide as Ht; simpl; [|rewrite elem_of_nil; tauto].
  rewrite list_elem_of_singleton.
  destruct Hg as [Hg|Hg]; [done|]. specialize (Hg c Hc).
  split; [intros [[?|?]|?]|intros [?|?]]; auto; congruence.
Qed.

Lemma candidate_source_ignores_row_witness :
  candidate_rows (with_committed_row (vendor_row 3) (session mixed_store []))
  = [asha; chitra]
  ∧ candidate_rows (with_committed_row (client_row 99) (session mixed_store []))
    = [asha; chitra].
Proof.
  split.
  - rewrite (candidate_source_ignores_row (vendor_row 3) (session mixed_store []));
      [reflexivity|]. left. discriminate.
  - rewrite (candidate_source_ignores_row (client_row 99) (session mixed_store []));
      [reflexivity|]. right. intros c Hc.
    repeat (apply elem_of_cons in Hc as [->|Hc]; [discriminate|]).
    by apply elem_of_nil in Hc.
Defined.

(** X8.  Once [save_geolocation] has returned [True] for a client id,
    the candidate source on the same connection no longer returns the
    clients of that id, and returns the other candidates as before. *)
Theorem saved_client_is_no_candidate
    (client_id : Z) (geo_data : GeocodeResult) (conn conn' : connection) :
  save_geolocation client_id geo_data conn = (Ok true, conn') →
  candidate_rows conn' = filter (λ c, id c ≠ client_id) (candidate_rows conn).
Proof.
  intros (Hp & lat & lng & Hs)%save_geolocation_true.
  rewrite !candidate_rows_spec, list_filter_filter, Hs. cbn [clients].
  apply filter_ext_elem. intros c Hc.
  assert (Some (id c) ∈ ids_typed_client conn'
          ↔ id c = client_id ∨ Some (id c) ∈ ids_typed_client conn) as ->.
  { unfold ids_typed_client at 1, visible. rewrite Hs, Hp, app_nil_r.
    cbn [geolocation]. rewrite filter_app, fmap_app, elem_of_app.
    rewrite filter_cons, filter_nil, decide_True by done. simpl.
    rewrite list_elem_of_singleton. fold (ids_typed_client conn).
    split; [intros [?|[= ?]]|intros [->|?]]; auto. }
  tauto.
Qed.

Lemma saved_client_is_no_candidate_witness :
  ∃ conn',
    save_geolocation 1 sample_geo (session three_client_store []) = (Ok true, conn')
    ∧ candidate_rows (session three_client_store []) = [asha; bharat; chitra]
    ∧ candidate_rows conn' = [bharat; chitra].
Proof.
  eexists. split; [reflexivity|]. split; [reflexivity|].
  rewrite (saved_client_is_no_candidate 1 sample_geo (session three_client_store []) _
             eq_refl).
  reflexivity.
Defined.

(** ** The writer, further *)

(** What a call of the writer leaves committed, when no transaction is
    open before it. *)
Lemma save_geolocation_committed
    (client_id : Z) (geo_data : GeocodeResult) (conn conn' : connection)
    (r : result bool) :
  save_geolocation client_id geo_data conn = (r, conn') →
  clients (store conn') = clients (store conn)
  ∧ match r with
    | Ok true =>
        pending conn' = []
        ∧ client_rows_of client_id (visible conn) = []
        ∧ ∃ lat lng,
            coordinates geo_data = Ok (lat, lng)
            ∧ geolocation (store conn')
              = visible conn ++ [new_row client_id lat lng]
    | Ok false =>
        store conn' = store conn
        ∧ (pending conn' = pending conn ∨ pending conn' = [])
    | Raise _ => store conn' = store conn
    end.
Proof.
  rewrite save_geolocation_unfold.
  destruct (check_and_insert client_id geo_data conn) as [[b|e] c1] eqn:Hbody.
  - intros [= <- <-].
    apply check_and_insert_cases in Hbody
      as [(Hs & Hp & Hne & _)|(Hnone & lat & lng & Hgeo & [([=] & _)|([= ->] & Hp & Hs)])].
    + rewrite Hs. split; [done|]. destruct b; [done|auto].
    + rewrite Hs. split; [done|]. split; [done|]. split; [done|]. by exists lat, lng.
  - assert (store c1 = store conn) as Hs1.
    { by apply check_and_insert_cases in Hbody
        as [(Hs & _)|(_ & lat & lng & _ & [(_ & Hs & _)|([=] & _)])]. }
    destruct (rollback c1) as [[[]|e'] c2] eqn:Hrb; intros [= <- <-];
      apply rollback_cases in Hrb as (Hs2 & [[? Hp2]|[? Hp2]]); try done;
      rewrite Hs2, Hs1; auto.
Qed.

(** X9.  [save_geolocation] never returns [True] and never changes the
    committed tables when the client has a row already, or when the
    data it is given has no coordinates (the [KeyError] is caught like
    a database error), whatever the server answers. *)
Theorem writer_never_duplicates
    (client_id : Z) (geo_data : GeocodeResult) (conn conn' : connection)
    (r : result bool) :
  client_rows_of client_id (visible conn) ≠ []
  ∨ (∃ error message, geo_data = Failure error message) →
  save_geolocation client_id geo_data conn = (r, conn') →
  r ≠ Ok true ∧ store conn' = store conn.
Proof.
  intros Hwhy Hsave. apply save_geolocation_committed in Hsave as (_ & Hr).
  destruct r as [[]|e]; [exfalso|by destruct Hr|done].
  destruct Hr as (_ & Hnone & lat & lng & Hgeo & _).
  destruct Hwhy as [Hsome|(error & message & ->)]; [done|discriminate Hgeo].
Qed.

Lemma writer_never_duplicates_witness :
  (save_geolocation 2 sample_geo (session bharat_known_store [])).1 = Ok false
  ∧ (save_geolocation 1 (Failure (JStr "ZERO_RESULTS") (Value JNull))
       (session bharat_known_store [])).1 = Ok false
  ∧ store (save_geolocation 1 (Failure (JStr "ZERO_RESULTS") (Value JNull))
             (session bharat_known_store [])).2 = bharat_known_store.
Proof.
  split; [reflexivity|]. split; [reflexivity|].
  destruct (save_geolocation 1 (Failure (JStr "ZERO_RESULTS") (Value JNull))
              (session bharat_known_store [])) as [r conn'] eqn:Hrun.
  exact (proj2 (writer_never_duplicates 1 _ _ conn' r
                  (or_intror (ex_intro _ _ (ex_intro _ _ eq_refl))) Hrun)).
Defined.

(** X10.  On a connection whose server answers every call,
    [save_geolocation] returns [True] exactly when the client has no row
    and the data has coordinates, and [False] otherwise; it never
    raises. *)
Theorem writer_result_reliable
    (client_id : Z) (geo_data : GeocodeResult) (conn : connection) :
  reliable conn →
  ∃ saved_now conn',
    save_geolocation client_id geo_data conn = (Ok saved_now, conn')
    ∧ (saved_now = true ↔
       client_rows_of client_id (visible conn) = []
       ∧ ∃ lat lng formatted place, geo_data = Success lat lng formatted place).
Proof.
  intros Hrel.
  destruct (save_geolocation_reliable client_id geo_data conn Hrel)
    as (conn' & _ & [(Hsome & Hrun & _)
                    |[(Hnone & lat & lng & Hgeo & Hrun & _)
                     |(Hnone & [e Hgeo] & Hrun & _)]]).
  - exists false, conn'. split; [done|]. split; [done|]. by intros [? _].
  - exists true, conn'. split; [done|]. split; [|done]. intros _. split; [done|].
    destruct geo_data as [la ln formatted place|]; [eauto|discriminate Hgeo].
  - exists false, conn'. split; [done|]. split; [done|].
    intros (_ & ? & ? & ? & ? & ->). discriminate Hgeo.
Qed.

Lemma writer_result_reliable_witness :
  ∃ conn', save_geolocation 1 sample_geo (session bharat_known_store [])
           = (Ok true, conn').
Proof.
  destruct (writer_result_reliable 1 sample_geo (session bharat_known_store []))
    as (saved_now & conn' & Hrun & Hiff).
  - intros fault Hin. by apply elem_of_nil in Hin.
  - exists conn'. rewrite Hrun. f_equal. f_equal. apply Hiff.
    split; [reflexivity|]. by eexists _, _, _, _.
Defined.

(** ** The loop and the run, further *)

Lemma saved_rows_app (a b : list OutcomeRecord) :
  saved_rows (a ++ b) = saved_rows a ++ saved_rows b.
Proof. unfold saved_rows. apply flat_map_app. Qed.

Lemma count_status_app (s : string) (a b : list OutcomeRecord) :
  count_status s (a ++ b) = (count_status s a + count_status s b)%nat.
Proof. unfold count_status. by rewrite filter_app, length_app. Qed.

(** One pass of the loop body, whatever the provider and the server
    answer. *)
Lemma process_client_inv
    (provider : oracle) (client : ClientRecord) (t : tally) (w w' : world)
    (r : result tally) :
  process_client provider client t w = (r, w') →
  pending (conn w) = [] →
  requests w' = requests w ++ [build_address_string client]
  ∧ sleeps w' = sleeps w
  ∧ clients (store (conn w')) = clients (store (conn w))
  ∧ match r with
    | Ok t' =>
        pending (conn w') = []
        ∧ ∃ o, results t' = results t ++ [o]
            ∧ outcome_id o = id client ∧ outcome_name o = client_name client
            ∧ geolocation (store (conn w'))
              = geolocation (store (conn w)) ++ saved_rows [o]
            ∧ (saved_rows [o] ≠ [] → client_rows_of (id client) (visible (conn w)) = [])
            ∧ success_count t' = (success_count t + count_status "success" [o])%nat
            ∧ skipped_count t' = (skipped_count t + count_status "skipped" [o])%nat
            ∧ failed_count t' = (failed_count t + count_status "failed" [o])%nat
    | Raise _ => store (conn w') = store (conn w)
    end.
Proof.
  unfold process_client, geocode, save. cbn [conn requests sleeps].
  intros Hrun Hp.
  destruct (get_geolocation _) as [lat lng formatted place|error message].
  - destruct (save_geolocation _ _ (conn w)) as [rs c1] eqn:Hsave.
    apply save_geolocation_committed in Hsave as (Hcl & Hr).
    destruct rs as [[]|e]; injection Hrun as <- <-; cbn [conn requests sleeps];
      (split; [done|]); (split; [done|]); (split; [done|]).
    + destruct Hr as (Hp1 & Hnone & la & ln & [= <- <-] & Hg).
      split; [done|]. eexists. split; [reflexivity|]. simpl.
      unfold visible in Hg. rewrite Hp, app_nil_r in Hg.
      repeat split; try done; unfold count_status; simpl; lia.
    + destruct Hr as (Hs & Hp1). split; [destruct Hp1; congruence|].
      eexists. split; [reflexivity|]. simpl. rewrite Hs, app_nil_r.
      repeat split; try done; unfold count_status; simpl; lia.
    + done.
  - injection Hrun as <- <-. cbn [conn requests sleeps].
    repeat split; try done. eexists. split; [reflexivity|]. simpl.
    rewrite app_nil_r. repeat split; try done; unfold count_status; simpl; lia.
Qed.

(** The loop from any point on, whatever the provider and the server
    answer: [outcomes] are the records of the clients gone through
    without an exception. *)
Lemma for_each_inv (provider : oracle) (total : nat) (todo : list ClientRecord) :
  ∀ (idx : nat) (t : tally) (w w' : world) (r : result tally),
    for_each provider total idx todo t w = (r, w') →
    pending (conn w) = [] →
    clients (store (conn w')) = clients (store (conn w))
    ∧ ∃ outcomes,
        geolocation (store (conn w'))
        = geolocation (store (conn w)) ++ saved_rows outcomes
        ∧ outcome_id <$> outcomes = id <$> take (length outcomes) todo
        ∧ requests w `prefix_of` requests w'
        ∧ requests w' `prefix_of` requests w ++ (build_address_string <$> todo)
        ∧ match r with
          | Ok t' =>
              results t' = results t ++ outcomes
              ∧ pending (conn w') = []
              ∧ length outcomes = length todo
              ∧ outcome_name <$> outcomes = client_name <$> todo
              ∧ requests w' = requests w ++ (build_address_string <$> todo)
              ∧ sleeps w' = (sleeps w + length todo `min` (total - idx))%nat
              ∧ success_count t'
                = (success_count t + count_status "success" outcomes)%nat
              ∧ skipped_count t'
                = (skipped_count t + count_status "skipped" outcomes)%nat
              ∧ failed_count t'
                = (failed_count t + count_status "failed" outcomes)%nat
          | Raise _ => (length outcomes < length todo)%nat
          end.
Proof.
  induction todo as [|client rest IH]; intros idx t w w' r; cbn [for_each].
  - intros [= <- <-] Hp. split; [done|]. exists []. simpl.
    rewrite !app_nil_r. repeat split; try done; lia.
  - destruct (process_client provider client t w) as [[t1|e] w1] eqn:Hone.
    + intros Hrest Hp.
      apply process_client_inv in Hone
        as (Hreq1 & Hsl1 & Hcl1 & Hp1 & o & Hres1 & Hid1 & Hname1 & Hg1 & _
            & Hsu1 & Hsk1 & Hfa1); [|done].
      set (w1' := if (idx <? total)%nat then sleep w1 else w1) in *.
      assert (conn w1' = conn w1 ∧ requests w1' = requests w1
              ∧ sleeps w1' = (sleeps w1 + if (idx <? total)%nat then 1 else 0)%nat)
        as (Hc & Hrq & Hsl).
      { subst w1'. destruct (_ <? _)%nat; simpl; repeat split; lia. }
      apply IH in Hrest as (Hcl & outcomes & Hg & Hids & Hpre1 & Hpre2 & Hr);
        [|by rewrite Hc].
      rewrite Hc in Hcl, Hg. rewrite Hrq in Hpre1, Hpre2.
      split; [congruence|]. exists (o :: outcomes).
      split; [rewrite Hg, Hg1, <- app_assoc; by rewrite <- saved_rows_app|].
      split; [cbn [length take]; rewrite !fmap_cons; by rewrite Hid1, Hids|].
      split; [etrans; [|exact Hpre1]; rewrite Hreq1; by apply prefix_app_r|].
      rewrite fmap_cons.
      split; [rewrite Hreq1, <- app_assoc in Hpre2; exact Hpre2|].
      destruct r as [t'|e]; [|simpl; lia].
      destruct Hr as (Hres & Hp' & Hlen & Hnames & Hreq & Hsleeps & Hsu & Hsk & Hfa).
      rewrite Hres, Hres1, <- app_assoc. split; [done|]. split; [done|].
      split; [simpl; lia|]. split; [rewrite !fmap_cons; by rewrite Hname1, Hnames|].
      split; [rewrite Hreq, Hrq, Hreq1, <- app_assoc; done|].
      split.
      { rewrite Hsleeps, Hsl, Hsl1. cbn [length].
        destruct (Nat.ltb_spec idx total); lia. }
      change (o :: outcomes) with ([o] ++ outcomes).
      rewrite !count_status_app. repeat split; lia.
    + intros [= <- <-] Hp.
      apply process_client_inv in Hone as (Hreq1 & _ & Hcl1 & Hs1); [|done].
      split; [done|]. exists []. rewrite fmap_cons. simpl. rewrite app_nil_r.
      split; [by rewrite Hs1|]. split; [done|].
      split; [rewrite Hreq1; by apply prefix_app_r|].
      split; [rewrite Hreq1; apply prefix_app, (prefix_cons _ []), prefix_nil|].
      lia.
Qed.

(** The candidates a run processes. *)
Lemma processed_unfold (d : database) (schedule : list bool) (c : connection) :
  store c = d → pending c = [] → candidate_rows c = candidate_rows (session d []).
Proof.
  intros Hs Hp. apply candidate_rows_ext; [by rewrite Hs|].
  intros i. unfold ids_typed_client, visible. by rewrite Hs, Hp.
Qed.

(** A run either leaves without a trace, before the loop, or goes into
    the loop over the fetched candidates cut to the limit. *)
Lemma process_clients_cases
    (cfg : config) (provider : oracle) (d : database) (schedule : list bool)
    (limit : option Z) :
  process_clients cfg provider d schedule limit
  = {| returned := None; summary := None; final := d; sent := []; pauses := 0 |}
  ∨ ∃ c1 r w',
      store c1 = d ∧ pending c1 = []
      ∧ apply_limit limit (candidate_rows (session d [])) ≠ []
      ∧ for_each provider
          (length (apply_limit limit (candidate_rows (session d [])))) 1
          (apply_limit limit (candidate_rows (session d []))) empty_tally
          {| conn := c1; requests := []; sleeps := 0 |}
        = (r, w')
      ∧ process_clients cfg provider d schedule limit
        = {| returned := match r with Ok t => Some (results t) | Raise _ => None end;
             summary :=
               match r with
               | Ok t =>
                   Some {| processed :=
                             length (apply_limit limit (candidate_rows (session d [])));
                           saved := success_count t;
                           skipped := skipped_count t;
                           failed := failed_count t |}
               | Raise _ => None
               end;
             final := store (conn w');
             sent := requests w';
             pauses := sleeps w' |}.
Proof.
  unfold process_clients.
  destruct (negb _); [by left|].
  destruct (connect d schedule) as [[[]|e] c] eqn:Hconnect; [|by left].
  unfold connect in Hconnect.
  apply server_answers_inv in Hconnect as (Hs & Hp & _). simpl in Hs, Hp.
  unfold fetch_and_process, get_clients_without_geolocation, and_then.
  cbn [conn requests sleeps].
  destruct (server_answers c) as [[[]|e] c1] eqn:Hfetch.
  - pose proof (candidate_rows_server_answers _ _ _ Hfetch) as Hrows.
    apply server_answers_inv in Hfetch as (Hs1 & Hp1 & _).
    rewrite (processed_unfold d schedule c1) by congruence.
    destruct (apply_limit limit (candidate_rows (session d []))) as [|client rest] eqn:Hl.
    + left. unfold close, discard. simpl. by rewrite Hs1, Hs.
    + right.
      destruct (for_each _ _ _ _ _ _) as [r w'] eqn:Hloop.
      exists c1, r, w'. split; [congruence|]. split; [congruence|].
      split; [done|]. split; [done|].
      unfold close, discard. by destruct r.
  - left. apply server_answers_inv in Hfetch as (Hs1 & _).
    unfold close, discard. simpl. by rewrite Hs1, Hs.
Qed.

Lemma elem_of_saved_rows (g : GeolocationRow) (outcomes : list OutcomeRecord) :
  g ∈ saved_rows outcomes ↔
  ∃ i name lat lng formatted,
    Saved i name lat lng formatted ∈ outcomes ∧ g = new_row i lat lng.
Proof.
  unfold saved_rows. rewrite list_elem_of_In, in_flat_map. split.
  - intros (o & Ho%list_elem_of_In & Hg).
    destruct o as [i name lat lng formatted| |]; try by destruct Hg.
    destruct Hg as [<-|[]]. by exists i, name, lat, lng, formatted.
  - intros (i & name & lat & lng & formatted & Ho & ->).
    exists (Saved i name lat lng formatted).
    split; [by apply list_elem_of_In|by left].
Qed.

Lemma elem_of_saved_ids (i : Z) (outcomes : list OutcomeRecord) :
  i ∈ saved_ids outcomes ↔
  ∃ name lat lng formatted, Saved i name lat lng formatted ∈ outcomes.
Proof.
  unfold saved_ids. rewrite list_elem_of_omap. split.
  - intros ([j name lat lng formatted| |] & Ho & [= <-]). eauto.
  - intros (name & lat & lng & formatted & Ho). by eexists.
Qed.

(** X11.  A run never deletes or changes a row: the clients are left
    as they were, and the geolocation relation after the run is the one
    before it followed by rows of type ['client'] whose ids are ids of
    candidates of this run.  This holds for every run, aborted or
    not. *)
Theorem run_only_appends
    (cfg : config) (provider : oracle) (d : database) (schedule : list bool)
    (limit : option Z) :
  clients (final (process_clients cfg provider d schedule limit)) = clients d
  ∧ ∃ added,
      geolocation (final (process_clients cfg provider d schedule limit))
      = geolocation d ++ added
      ∧ Forall (λ g, geo_type g = Some "client"
                     ∧ ∃ c, c ∈ apply_limit limit (candidate_rows (session d []))
                            ∧ geo_id g = Some (id c)) added.
Proof.
  destruct (process_clients_cases cfg provider d schedule limit)
    as [->|(c1 & r & w' & Hs & Hp & _ & Hloop & ->)]; cbn [final].
  { split; [done|]. exists []. by rewrite app_nil_r. }
  apply for_each_inv in Hloop as (Hcl & outcomes & Hg & Hids & _); [|done].
  cbn [conn] in Hcl, Hg. rewrite Hs in Hcl, Hg.
  split; [done|]. exists (saved_rows outcomes). split; [done|].
  apply Forall_forall. intros g (i & name & lat & lng & formatted & Ho & ->)%elem_of_saved_rows.
  split; [done|].
  assert (i ∈ outcome_id <$> outcomes) as Hi.
  { apply list_elem_of_fmap. by exists (Saved i name lat lng formatted). }
  rewrite Hids in Hi. apply list_elem_of_fmap in Hi as (c & -> & Hc).
  exists c. split; [|done]. by eapply subseteq_take.
Qed.

(** X12.  When a run returns its records, the rows it has added to the
    geolocation relation are exactly those of the records of status
    ["success"], in the order of the records, with the id and the
    coordinates the record carries. *)
Theorem rows_are_success_records
    (cfg : config) (provider : oracle) (d : database) (schedule : list bool)
    (limit : option Z) (outcomes : list OutcomeRecord) :
  returned (process_clients cfg provider d schedule limit) = Some outcomes →
  geolocation (final (process_clients cfg provider d schedule limit))
  = geolocation d ++ saved_rows outcomes
  ∧ length (saved_rows outcomes) = count_status "success" outcomes.
Proof.
  destruct (process_clients_cases cfg provider d schedule limit)
    as [->|(c1 & r & w' & Hs & Hp & _ & Hloop & ->)]; cbn [final returned];
    [discriminate|].
  destruct r as [t|e]; [|discriminate]. intros [= <-].
  apply for_each_inv in Hloop as (_ & outs & Hg & _ & _ & _ & Hres & _); [|done].
  cbn [conn] in Hg. rewrite Hs in Hg. simpl in Hres. rewrite Hres. split; [done|].
  clear. unfold saved_rows, count_status.
  induction outs as [|[] outs IH]; simpl; rewrite ?filter_cons; simpl;
    try case_decide; simpl; try done; by rewrite IH.
Qed.

Lemma rows_are_success_records_witness :
  geolocation (final (process_clients sample_config sample_provider
                        three_client_store [] None))
  = [new_row 1 (JInt 12) (JInt 77); new_row 2 (JInt 12) (JInt 77)].
Proof.
  destruct (rows_are_success_records sample_config sample_provider
              three_client_store [] None three_client_outcomes eq_refl) as [-> _].
  reflexivity.
Defined.

(** X13.  When a run returns its records, there is one record per
    candidate processed, in the order of the candidates, and each record
    carries the id and the name of its candidate. *)
Theorem records_follow_candidates
    (cfg : config) (provider : oracle) (d : database) (schedule : list bool)
    (limit : option Z) (outcomes : list OutcomeRecord) :
  returned (process_clients cfg provider d schedule limit) = Some outcomes →
  outcome_id <$> outcomes = id <$> apply_limit limit (candidate_rows (session d []))
  ∧ outcome_name <$> outcomes
    = client_name <$> apply_limit limit (candidate_rows (session d []))
  ∧ outcomes ≠ [].
Proof.
  destruct (process_clients_cases cfg provider d schedule limit)
    as [->|(c1 & r & w' & Hs & Hp & Hne & Hloop & ->)]; cbn [returned];
    [discriminate|].
  destruct r as [t|e]; [|discriminate]. intros [= <-].
  apply for_each_inv in Hloop
    as (_ & outs & _ & Hids & _ & _ & Hres & _ & Hlen & Hnames & _); [|done].
  simpl in Hres. rewrite Hres. rewrite Hlen, firstn_all in Hids.
  split; [done|]. split; [done|].
  intros ->. simpl in Hlen. by destruct (apply_limit _ _).
Qed.

Lemma records_follow_candidates_witness :
  outcome_id <$> three_client_outcomes = [1; 2; 3]
  ∧ outcome_name <$> three_client_outcomes
    = [Some "Asha Traders"; Some "Bharat Stores"; Some "Chitra Mills"].
Proof.
  destruct (records_follow_candidates sample_config sample_provider
              three_client_store [] None three_client_outcomes eq_refl)
    as (-> & -> & _).
  split; reflexivity.
Defined.

(** X14.  Every run sends the addresses of its candidates to the
    provider in order, one request per candidate and never a second
    one; a run that returns its records has sent the address of every
    candidate and paused once between two candidates, not after the
    last. *)
Theorem requests_follow_candidates
    (cfg : config) (provider : oracle) (d : database) (schedule : list bool)
    (limit : option Z) :
  sent (process_clients cfg provider d schedule limit)
  `prefix_of` (build_address_string <$> apply_limit limit (candidate_rows (session d [])))
  ∧ (is_Some (returned (process_clients cfg provider d schedule limit)) →
     sent (process_clients cfg provider d schedule limit)
     = build_address_string <$> apply_limit limit (candidate_rows (session d []))
     ∧ S (pauses (process_clients cfg provider d schedule limit))
       = length (apply_limit limit (candidate_rows (session d [])))).
Proof.
  destruct (process_clients_cases cfg provider d schedule limit)
    as [->|(c1 & r & w' & Hs & Hp & Hne & Hloop & ->)]; cbn [returned sent pauses].
  { split; [apply prefix_nil|]. by intros [? [=]]. }
  apply for_each_inv in Hloop as (_ & outs & _ & _ & _ & Hpre & Hr); [|done].
  split; [exact Hpre|].
  destruct r as [t|e]; [|by intros [? [=]]]. intros _.
  destruct Hr as (_ & _ & _ & _ & Hreq & Hsl & _). simpl in Hreq, Hsl.
  split; [done|]. rewrite Hsl.
  destruct (apply_limit limit (candidate_rows (session d []))); [done|].
  cbn [length]. lia.
Qed.

Lemma requests_follow_candidates_witness :
  sent (process_clients sample_config sample_provider three_client_store [] (Some 2))
  = ["12 MG Road, Bengaluru, Karnataka, 560001, India"; "Pune, India"]
  ∧ pauses (process_clients sample_config sample_provider three_client_store []
              (Some 2)) = 1%nat.
Proof.
  destruct (requests_follow_candidates sample_config sample_provider
              three_client_store [] (Some 2)) as [_ Hall].
  destruct Hall as [-> Hpauses]; [by eexists|].
  split; [reflexivity|]. apply eq_add_S. rewrite Hpauses. reflexivity.
Defined.

(** X15.  The summary a run prints is the tally of the records it
    returns: the three counters are the numbers of records of status
    ["success"], ["skipped"] and ["failed"], and the total is the
    number of records. *)
Theorem summary_counts_records
    (cfg : config) (provider : oracle) (d : database) (schedule : list bool)
    (limit : option Z) (s : RunSummary) :
  summary (process_clients cfg provider d schedule limit) = Some s →
  ∃ outcomes,
    returned (process_clients cfg provider d schedule limit) = Some outcomes
    ∧ processed s = length outcomes
    ∧ saved s = count_status "success" outcomes
    ∧ skipped s = count_status "skipped" outcomes
    ∧ failed s = count_status "failed" outcomes.
Proof.
  destruct (process_clients_cases cfg provider d schedule limit)
    as [->|(c1 & r & w' & Hs & Hp & Hne & Hloop & ->)]; cbn [returned summary];
    [discriminate|].
  destruct r as [t|e]; [|discriminate]. intros [= <-].
  apply for_each_inv in Hloop
    as (_ & outs & _ & _ & _ & _ & Hres & _ & Hlen & _ & _ & _ & Hsu & Hsk & Hfa);
    [|done].
  simpl in *. exists (results t). rewrite Hres. by repeat split.
Qed.

Lemma summary_counts_records_witness :
  ∃ outcomes,
    returned (process_clients sample_config sample_provider three_client_store [] None)
    = Some outcomes
    ∧ count_status "success" outcomes = 2%nat
    ∧ count_status "failed" outcomes = 1%nat.
Proof.
  destruct (summary_counts_records sample_config sample_provider
              three_client_store [] None
              {| processed := 3; saved := 2; skipped := 0; failed := 1 |} eq_refl)
    as (outcomes & Hret & _ & Hsaved & _ & Hfailed).
  exists outcomes. by split.
Defined.

Lemma process_client_one_row
    (provider : oracle) (client : ClientRecord) (t : tally) (w w' : world)
    (r : result tally) :
  process_client provider client t w = (r, w') →
  at_most_one_row (visible (conn w)) →
  at_most_one_row (visible (conn w')).
Proof.
  unfold process_client, geocode, save. cbn [conn requests sleeps].
  destruct (get_geolocation _) as [lat lng formatted place|error message].
  - destruct (save_geolocation _ _ (conn w)) as [rs c1] eqn:Hsave.
    intros Hrun Hinv.
    assert (conn w' = c1) as -> by (destruct rs as [[]|e]; by injection Hrun as <- <-).
    apply save_geolocation_visible in Hsave
      as (_ & [->|[->|(Hnone & la & ln & ->)]]); [done| |].
    + by apply at_most_one_row_prefix with (pending (conn w)).
    + by apply at_most_one_row_snoc.
  - by intros [= <- <-].
Qed.

Lemma for_each_one_row (provider : oracle) (total : nat) (todo : list ClientRecord) :
  ∀ (idx : nat) (t : tally) (w w' : world) (r : result tally),
    for_each provider total idx todo t w = (r, w') →
    at_most_one_row (visible (conn w)) →
    at_most_one_row (visible (conn w')).
Proof.
  induction todo as [|client rest IH]; intros idx t w w' r; cbn [for_each].
  - by intros [= <- <-].
  - destruct (process_client provider client t w) as [[t1|e] w1] eqn:Hone.
    + intros Hrest Hinv. apply process_client_one_row in Hone; [|done].
      apply IH in Hrest; [done|]. by destruct (_ <? _)%nat.
    + intros [= <- <-] Hinv. by apply process_client_one_row in Hone.
Qed.

(** X16.  A run keeps the invariant of the geolocation relation: when
    the relation holds at most one row per id with type ['client']
    before the run, it does so after the run, however the run ends. *)
Theorem run_keeps_one_row
    (cfg : config) (provider : oracle) (d : database) (schedule : list bool)
    (limit : option Z) :
  at_most_one_row (geolocation d) →
  at_most_one_row (geolocation (final (process_clients cfg provider d schedule limit))).
Proof.
  intros Hinv.
  destruct (process_clients_cases cfg provider d schedule limit)
    as [->|(c1 & r & w' & Hs & Hp & _ & Hloop & ->)]; cbn [final]; [done|].
  apply for_each_one_row in Hloop.
  - by apply at_most_one_row_prefix with (pending (conn w')).
  - cbn [conn]. unfold visible. by rewrite Hs, Hp, app_nil_r.
Qed.

Lemma run_keeps_one_row_witness :
  at_most_one_row
    (geolocation (final (process_clients sample_config sample_provider
                           bharat_known_store [] None))).
Proof.
  apply run_keeps_one_row. intros k. unfold client_rows_of. simpl.
  rewrite filter_cons, filter_nil. case_decide; simpl; lia.
Defined.

(** X17.  When a run returns its records, the candidates of the next
    run on the store it leaves are the candidates of this run whose id
    is not the id of a record of status ["success"]: clients that were
    skipped or failed, or lay beyond the limit, come back unless a
    client of the same id was saved. *)
Theorem next_run_candidates
    (cfg : config) (provider : oracle) (d : database) (schedule : list bool)
    (limit : option Z) (outcomes : list OutcomeRecord) :
  returned (process_clients cfg provider d schedule limit) = Some outcomes →
  candidate_rows
    (session (final (process_clients cfg provider d schedule limit)) [])
  = filter (λ c, id c ∉ saved_ids outcomes) (candidate_rows (session d [])).
Proof.
  destruct (process_clients_cases cfg provider d schedule limit)
    as [->|(c1 & r & w' & Hs & Hp & _ & Hloop & ->)]; cbn [final returned];
    [discriminate|].
  destruct r as [t|e]; [|discriminate]. intros [= <-].
  apply for_each_inv in Hloop as (Hcl & outs & Hg & _ & _ & _ & Hres & _); [|done].
  cbn [conn] in Hcl, Hg. rewrite Hs in Hcl, Hg. simpl in Hres. rewrite Hres.
  rewrite !candidate_rows_spec, list_filter_filter. cbn [session store]. rewrite Hcl.
  apply filter_ext_elem. intros c _.
  assert (Some (id c) ∈ ids_typed_client (session (store (conn w')) [])
          ↔ Some (id c) ∈ ids_typed_client (session d []) ∨ id c ∈ saved_ids outs)
    as ->; [|tauto].
  unfold ids_typed_client, visible. cbn [session store pending].
  rewrite !app_nil_r, Hg, filter_app, fmap_app, elem_of_app.
  apply or_iff_compat_l. rewrite list_elem_of_fmap, elem_of_saved_ids. split.
  - intros (g & Hid & [_ Hin]%list_elem_of_filter).
    apply elem_of_saved_rows in Hin as (i & name & lat & lng & formatted & Ho & ->).
    injection Hid as ->. eauto.
  - intros (name & lat & lng & formatted & Ho).
    exists (new_row (id c) lat lng). split; [done|].
    apply list_elem_of_filter. split; [done|]. apply elem_of_saved_rows. eauto 10.
Qed.

Lemma next_run_candidates_witness :
  candidate_rows
    (session (final (process_clients sample_config sample_provider
                       three_client_store [] None)) [])
  = [chitra].
Proof.
  rewrite (next_run_candidates sample_config sample_provider three_client_store []
             None three_client_outcomes eq_refl).
  reflexivity.
Defined.

Lemma for_each_all_fail (provider : oracle) (total : nat) (todo : list ClientRecord) :
  (∀ n a, ∃ error message, get_geolocation (provider n a) = Failure error message) →
  ∀ (idx : nat) (t : tally) (w : world),
    ∃ t' w',
      for_each provider total idx todo t w = (Ok t', w')
      ∧ conn w' = conn w
      ∧ ∃ outcomes, results t' = results t ++ outcomes
                    ∧ Forall (λ o, status o = "failed") outcomes.
Proof.
  intros Hdown. induction todo as [|client rest IH]; intros idx t w; cbn [for_each].
  - exists t, w. repeat split. exists []. by rewrite app_nil_r.
  - destruct (Hdown (length (requests w)) (build_address_string client))
      as (error & message & Hgeo).
    rewrite (process_client_failed provider client t w _ _ Hgeo).
    match goal with |- context [for_each _ _ _ _ ?t1 ?w1] =>
      destruct (IH (S idx) t1 w1) as (t' & w' & Hrun & Hc & outs & Hres & Hall) end.
    exists t', w'. split; [done|]. split.
    + rewrite Hc. by destruct (_ <? _)%nat.
    + eexists (_ :: outs). simpl in Hres. rewrite Hres, <- app_assoc.
      split; [done|]. by constructor.
Qed.

(** X18.  When the provider fails for every address (no match, a
    transport error, a malformed body), a run writes nothing to the
    store, never stops in the loop, and every record it returns has
    status ["failed"]. *)
Theorem all_geocoding_fails
    (cfg : config) (provider : oracle) (d : database) (schedule : list bool)
    (limit : option Z) :
  (∀ n a, ∃ error message, get_geolocation (provider n a) = Failure error message) →
  final (process_clients cfg provider d schedule limit) = d
  ∧ (returned (process_clients cfg provider d schedule limit) = None →
     sent (process_clients cfg provider d schedule limit) = [])
  ∧ ∀ outcomes,
      returned (process_clients cfg provider d schedule limit) = Some outcomes →
      Forall (λ o, status o = "failed") outcomes.
Proof.
  intros Hdown.
  destruct (process_clients_cases cfg provider d schedule limit)
    as [->|(c1 & r & w' & Hs & Hp & _ & Hloop & ->)]; cbn [final returned sent].
  { split; [done|]. split; [done|]. intros ? [=]. }
  match type of Hloop with for_each _ ?total ?idx ?todo ?t ?w = _ =>
    destruct (for_each_all_fail provider total todo Hdown idx t w)
      as (t' & w0 & Hrun & Hc & outs & Hres & Hall) end.
  rewrite Hrun in Hloop. injection Hloop as <- <-.
  split; [by rewrite Hc|]. split; [discriminate|].
  intros outcomes [= <-]. by rewrite Hres.
Qed.

Lemma all_geocoding_fails_witness :
  final (process_clients sample_config provider_down three_client_store [] None)
  = three_client_store
  ∧ status <$>
      default [] (returned (process_clients sample_config provider_down
                              three_client_store [] None))
    = ["failed"; "failed"; "failed"].
Proof.
  destruct (all_geocoding_fails sample_config provider_down three_client_store []
              None) as (Hfinal & _ & _).
  - intros n a. by eexists _, _.
  - split; [exact Hfinal|reflexivity].
Defined.

(** X19.  A run leaves before anything is touched when the host or the
    API key is missing or empty, when the connection cannot be made, or
    when the candidate query fails: it returns nothing, prints no
    summary, sends no request and leaves the store as it was. *)
Theorem early_abort_leaves_no_trace
    (cfg : config) (provider : oracle) (d : database) (schedule : list bool)
    (limit : option Z) :
  truthy_text (PG_HOST cfg) = false
  ∨ truthy_text (GOOGLE_API_KEY cfg) = false
  ∨ schedule !! 0%nat = Some true
  ∨ schedule !! 1%nat = Some true →
  process_clients cfg provider d schedule limit
  = {| returned := None; summary := None; final := d; sent := []; pauses := 0 |}.
Proof.
  intros Hwhy. unfold process_clients.
  destruct (truthy_text (PG_HOST cfg)) eqn:Hhost; [|done].
  destruct (truthy_text (GOOGLE_API_KEY cfg)) eqn:Hkey; [|done]. simpl.
  destruct Hwhy as [[=]|[[=]|Hfault]].
  unfold connect, server_answers. cbn [faults store pending].
  destruct schedule as [|[] [|[] later]]; cbn in Hfault;
    try (destruct Hfault; discriminate); try done.
Qed.

Lemma early_abort_leaves_no_trace_witness :
  process_clients {| PG_HOST := Some "db.example"; GOOGLE_API_KEY := Some "" |}
    sample_provider three_client_store [] None
  = {| returned := None; summary := None; final := three_client_store;
       sent := []; pauses := 0 |}
  ∧ process_clients sample_config sample_provider three_client_store [false; true] None
    = {| returned := None; summary := None; final := three_client_store;
         sent := []; pauses := 0 |}.
Proof.
  split.
  - apply early_abort_leaves_no_trace. right. left. reflexivity.
  - apply early_abort_leaves_no_trace. right. right. right. reflexivity.
Defined.

Lemma client_rows_of_app_l (i : Z) (rows more : list GeolocationRow) :
  client_rows_of i rows ≠ [] → client_rows_of i (rows ++ more) ≠ [].
Proof.
  unfold client_rows_of. rewrite filter_app. intros Hne [? _]%app_eq_nil. done.
Qed.

(** The loop on a connection whose server answers every call: it does
    not raise, and every client recorded as saved or skipped has a row
    when the loop ends. *)
Lemma for_each_reliable (provider : oracle) (total : nat) (todo : list ClientRecord) :
  ∀ (idx : nat) (t : tally) (w : world),
    reliable (conn w) →
    ∃ t' w' outcomes more,
      for_each provider total idx todo t w = (Ok t', w')
      ∧ reliable (conn w')
      ∧ visible (conn w') = visible (conn w) ++ more
      ∧ results t' = results t ++ outcomes
      ∧ ∀ o, o ∈ outcomes → status o ≠ "failed" →
          client_rows_of (outcome_id o) (visible (conn w')) ≠ [].
Proof.
  induction todo as [|client rest IH]; intros idx t w Hrel; cbn [for_each].
  - exists t, w, [], []. rewrite !app_nil_r. repeat split; try done.
    intros o Ho. by apply elem_of_nil in Ho.
  - assert (∃ t1 c1 o more1,
              process_client provider client t w
              = (Ok t1, {| conn := c1;
                           requests := requests w ++ [build_address_string client];
                           sleeps := sleeps w |})
              ∧ reliable c1 ∧ visible c1 = visible (conn w) ++ more1
              ∧ results t1 = results t ++ [o]
              ∧ (status o ≠ "failed" → client_rows_of (outcome_id o) (visible c1) ≠ []))
      as (t1 & c1 & o & more1 & -> & Hrel1 & Hv1 & Hres1 & Hrow1).
    { destruct (get_geolocation (provider (length (requests w))
                                   (build_address_string client)))
        as [lat lng formatted place|error message] eqn:Hgeo.
      - destruct (decide (client_rows_of (id client) (visible (conn w)) = []))
          as [Hnone|Hsome].
        + destruct (process_client_saved provider client t w _ _ _ _ Hrel Hgeo Hnone)
            as (c1 & Hrun & Hrel1 & Hp1 & Hs1).
          assert (visible c1 = visible (conn w) ++ [new_row (id client) lat lng]) as Hv
            by (unfold visible at 1; by rewrite Hs1, Hp1, app_nil_r).
          eexists _, c1, _, _. split; [exact Hrun|]. split; [done|].
          split; [exact Hv|]. split; [done|]. intros _. simpl. rewrite Hv.
          unfold client_rows_of. rewrite filter_app, filter_cons, decide_True by done.
          by intros [_ ?]%app_eq_nil.
        + destruct (process_client_skipped provider client t w _ _ _ _ Hrel Hgeo Hsome)
            as (c1 & Hrun & Hrel1 & Hp1 & Hs1).
          assert (visible c1 = visible (conn w)) as Hv
            by (unfold visible; by rewrite Hs1, Hp1).
          eexists _, c1, _, []. split; [exact Hrun|]. split; [done|].
          rewrite app_nil_r. split; [exact Hv|]. split; [done|].
          intros _. simpl. by rewrite Hv.
      - eexists _, (conn w), _, []. rewrite app_nil_r.
        split; [exact (process_client_failed provider client t w _ _ Hgeo)|].
        repeat split; try done. }
    match goal with |- context [for_each _ _ _ _ _ ?w1] =>
      destruct (IH (S idx) t1 w1) as (t' & w' & outs & more & Hrun & Hrel' & Hv' & Hres' & Hrows);
        [by destruct (_ <? _)%nat|];
      assert (conn w1 = c1) as Hc by (by destruct (_ <? _)%nat) end.
    rewrite Hc in Hv'.
    exists t', w', (o :: outs), (more1 ++ more). split; [exact Hrun|].
    split; [done|]. split; [by rewrite Hv', Hv1, app_assoc|].
    split; [by rewrite Hres', Hres1, <- app_assoc|].
    intros o' [->|Ho']%elem_of_cons Hst; [|by apply Hrows].
    rewrite Hv'. by apply client_rows_of_app_l, Hrow1.
Qed.

(** X20.  With a complete configuration and a server that answers
    every call, a run returns its records whenever there is a candidate
    (it returns nothing only when there is none), and every client it
    records with status ["success"] or ["skipped"] has a geolocation row
    of type ['client'] in the store the run leaves. *)
Theorem reliable_run_records
    (cfg : config) (provider : oracle) (d : database) (schedule : list bool)
    (limit : option Z) :
  truthy_text (PG_HOST cfg) = true →
  truthy_text (GOOGLE_API_KEY cfg) = true →
  (∀ fault, fault ∈ schedule → fault = false) →
  (apply_limit limit (candidate_rows (session d [])) = [] ↔
   returned (process_clients cfg provider d schedule limit) = None)
  ∧ ∀ outcomes o,
      returned (process_clients cfg provider d schedule limit) = Some outcomes →
      o ∈ outcomes → status o ≠ "failed" →
      client_rows_of (outcome_id o)
        (geolocation (final (process_clients cfg provider d schedule limit))) ≠ [].
Proof.
  intros Hhost Hkey Hrel. unfold process_clients. rewrite Hhost, Hkey. simpl.
  destruct (server_answers_reliable (session d schedule) Hrel)
    as (c & Hconnect & Hs & Hp & Hrelc).
  unfold connect. fold (session d schedule). rewrite Hconnect.
  unfold fetch_and_process, get_clients_without_geolocation, and_then.
  cbn [conn requests sleeps].
  destruct (server_answers_reliable c Hrelc) as (c1 & Hfetch & Hs1 & Hp1 & Hrel1).
  rewrite Hfetch.
  assert (store c1 = d ∧ pending c1 = []) as [Hd Hnil]
    by (rewrite Hs1, Hp1, Hs, Hp; done).
  rewrite (processed_unfold d schedule c1) by done.
  destruct (apply_limit limit (candidate_rows (session d []))) as [|client rest] eqn:Hl.
  { simpl. split; [done|]. intros ? ? [=]. }
  match goal with |- context [for_each ?p ?total ?idx ?todo ?t ?w] =>
    destruct (for_each_reliable p total todo idx t w Hrel1)
      as (t' & w' & outs & more & Hrun & _ & Hv & Hres & Hrows);
    destruct (for_each_inv p total todo idx t w w' (Ok t') Hrun Hnil)
      as (_ & _ & _ & _ & _ & _ & _ & Hp' & _) end.
  rewrite Hrun. cbn [returned final close discard store].
  split; [split; discriminate|].
  intros outcomes o [= <-] Ho Hst. simpl in Hres. rewrite Hres in Ho.
  specialize (Hrows o Ho Hst). unfold visible in Hrows.
  by rewrite Hp', app_nil_r in Hrows.
Qed.

Lemma reliable_run_records_witness :
  returned (process_clients sample_config sample_provider three_client_store
              [false; false; false] None) ≠ None
  ∧ client_rows_of 2
      (geolocation (final (process_clients sample_config sample_provider
                             three_client_store [false; false; false] None))) ≠ [].
Proof.
  destruct (reliable_run_records sample_config sample_provider three_client_store
              [false; false; false] None eq_refl eq_refl) as [Hiff Hrows].
  - intros fault Hin.
    repeat (apply elem_of_cons in Hin as [->|Hin]; [done|]).
    by apply elem_of_nil in Hin.
  - split.
    + intros Hnone. apply Hiff in Hnone. discriminate Hnone.
    + apply (Hrows three_client_outcomes
               (Saved 2 (Some "Bharat Stores") (JInt 12) (JInt 77) (JStr "Pune, India")));
        [reflexivity| |discriminate].
      right. left.
Defined.

(** ** The end-to-end run over three candidates *)


